(** * BEP-Experiment: the React form component [App.js]

    A shallow embedding of the form controller of
    [react-form-app/src/App.js]: the controlled form state, the field
    editor [handleChange]/[handleFile], the validator [validate], the
    submission path [handleSubmit]/[saveSubmission], the deletion
    [handleDelete] and the preview effect of [useEffect].

    The browser is modelled around the component: JavaScript strings are
    sequences of UTF-16 code units, [localStorage] is a finite map with a
    quota, [URL.createObjectURL]/[URL.revokeObjectURL] keep a registry of
    live object URLs, [FileReader] a list of pending reads, and the clock
    is read by [new Date()]. *)

From Stdlib Require Import ZArith NArith Lia.
From Stdlib Require Ascii String.
From stdpp Require Import base gmap list strings fin_maps.

(** ** JavaScript strings *)

Module JS.

(** A string value is its sequence of UTF-16 code units. *)
Abbreviation jsstring := (list N).

(** A source literal, written in ASCII. *)
Definition js (s : string) : jsstring :=
  map Ascii.N_of_ascii (String.list_ascii_of_string s).

(** [WhiteSpace] and [LineTerminator] of ECMAScript: the code units that
    [String.prototype.trim] strips, that [\s] matches in a regular
    expression, and that [StringToNumber] skips at both ends. *)
Definition is_space (c : N) : bool :=
  ((9 <=? c) && (c <=? 13) ||
   (c =? 32) || (c =? 160) || (c =? 5760) ||
   ((8192 <=? c) && (c <=? 8202)) ||
   (c =? 8232) || (c =? 8233) || (c =? 8239) || (c =? 8287) ||
   (c =? 12288) || (c =? 65279))%N.

Fixpoint trimStart (s : jsstring) : jsstring :=
  match s with
  | c :: s' => if is_space c then trimStart s' else s
  | [] => []
  end.

Definition trimEnd (s : jsstring) : jsstring :=
  reverse (trimStart (reverse s)).

(** [s.trim()] *)
Definition trim (s : jsstring) : jsstring := trimEnd (trimStart s).

(** Truthiness of a string: every string but the empty one. *)
Definition truthy (s : jsstring) : bool :=
  match s with [] => false | _ => true end.

(** *** Regular expressions

    The fragment the component uses: character classes, concatenation,
    and [+].  A pattern [/^r$/] without flags is tested against the whole
    subject, which the matcher does by Brzozowski derivatives. *)

Inductive regex : Type :=
  | Void
  | Eps
  | Class (p : N → bool)
  | Cat (r1 r2 : regex)
  | Alt (r1 r2 : regex)
  | Star (r : regex).

(** [r+] *)
Definition Plus (r : regex) : regex := Cat r (Star r).

Fixpoint nullable (r : regex) : bool :=
  match r with
  | Void => false
  | Eps => true
  | Class _ => false
  | Cat r1 r2 => nullable r1 && nullable r2
  | Alt r1 r2 => nullable r1 || nullable r2
  | Star _ => true
  end.

Fixpoint deriv (c : N) (r : regex) : regex :=
  match r with
  | Void => Void
  | Eps => Void
  | Class p => if p c then Eps else Void
  | Cat r1 r2 =>
      if nullable r1 then Alt (Cat (deriv c r1) r2) (deriv c r2)
      else Cat (deriv c r1) r2
  | Alt r1 r2 => Alt (deriv c r1) (deriv c r2)
  | Star r1 => Cat (deriv c r1) (Star r1)
  end.

(** [/^r$/.test(s)] *)
Fixpoint test (r : regex) (s : jsstring) : bool :=
  match s with
  | [] => nullable r
  | c :: s' => test (deriv c r) s'
  end.

(** The language of a pattern, as the reference for [test]. *)
Inductive matches : regex → jsstring → Prop :=
  | m_eps : matches Eps []
  | m_class p c : p c = true → matches (Class p) [c]
  | m_cat r1 r2 s1 s2 :
      matches r1 s1 → matches r2 s2 → matches (Cat r1 r2) (s1 ++ s2)
  | m_alt_l r1 r2 s : matches r1 s → matches (Alt r1 r2) s
  | m_alt_r r1 r2 s : matches r2 s → matches (Alt r1 r2) s
  | m_star_nil r : matches (Star r) []
  | m_star_app r s1 s2 :
      matches r s1 → matches (Star r) s2 → matches (Star r) (s1 ++ s2).

(** *** Numbers

    A Number value is an IEEE 754 binary64: not-a-number, an infinity,
    or [(-1)^neg * m * 2^e] with [m < 2^53] and [-1074 <= e <= 971]. *)

Inductive number : Type :=
  | NaN
  | Infinity (neg : bool)
  | Finite (neg : bool) (m : N) (e : Z).

Definition zero : number := Finite false 0 0.

(** [isNaN(x)] on a Number. *)
Definition isNaN (x : number) : bool :=
  match x with NaN => true | _ => false end.

(** The integer [(-1)^neg * m * 2^(e - base)], for [base <= e]. *)
Definition scaled (base : Z) (neg : bool) (m : N) (e : Z) : Z :=
  ((if neg then -1 else 1) * Z.of_N m * 2 ^ (e - base))%Z.

(** The abstract operation [IsLessThan(x, y)] on Numbers; [None] is its
    result [undefined], when an operand is not-a-number. *)
Definition IsLessThan (x y : number) : option bool :=
  match x, y with
  | NaN, _ | _, NaN => None
  | Infinity n1, Infinity n2 => Some (n1 && negb n2)
  | Infinity n1, Finite _ _ _ => Some n1
  | Finite _ _ _, Infinity n2 => Some (negb n2)
  | Finite n1 m1 e1, Finite n2 m2 e2 =>
      let base := Z.min e1 e2 in
      Some (scaled base n1 m1 e1 <? scaled base n2 m2 e2)%Z
  end.

(** [x < y] *)
Definition lt (x y : number) : bool :=
  match IsLessThan x y with Some true => true | _ => false end.

(** [x <= y]: [IsLessThan(y, x)] is neither [true] nor [undefined]. *)
Definition le (x y : number) : bool :=
  match IsLessThan y x with Some false => true | _ => false end.

(** [x > y] *)
Definition gt (x y : number) : bool := lt y x.

(** The binary64 nearest to the positive rational [a / b], ties to even. *)
Definition round_ratio (neg : bool) (a b : Z) : number :=
  let el := (Z.log2 a - Z.log2 b)%Z in
  let f :=
    (if (0 <=? el)%Z
     then (if (b * 2 ^ el <=? a)%Z then el else el - 1)
     else (if (b <=? a * 2 ^ (- el))%Z then el else el - 1))%Z in
  let e := Z.max (f - 52) (-1074) in
  let n := (if (0 <=? e)%Z then a else a * 2 ^ (- e))%Z in
  let d := (if (0 <=? e)%Z then b * 2 ^ e else b)%Z in
  let q := (n / d)%Z in
  let r := (n mod d)%Z in
  let m := (if (d <? 2 * r)%Z || ((2 * r =? d)%Z && Z.odd q)
            then q + 1 else q)%Z in
  let e' := (if (m =? 2 ^ 53)%Z then e + 1 else e)%Z in
  let m' := (if (m =? 2 ^ 53)%Z then 2 ^ 52 else m)%Z in
  if (971 <? e')%Z then Infinity neg else Finite neg (Z.to_N m') e'.

(** The Number for the decimal value [d * 10^k]. *)
Definition round_decimal (neg : bool) (d : N) (k : Z) : number :=
  if (d =? 0)%N then Finite neg 0 0
  else if (0 <=? k)%Z then round_ratio neg (Z.of_N d * 10 ^ k) 1
  else round_ratio neg (Z.of_N d) (10 ^ (- k)).

Definition is_digit (c : N) : bool := ((48 <=? c) && (c <=? 57))%N.

(** The value of a digit of radix up to 16, if [c] is one. *)
Definition digit_value (radix : N) (c : N) : option N :=
  let v :=
    (if (48 <=? c) && (c <=? 57) then Some (c - 48)
     else if (97 <=? c) && (c <=? 102) then Some (c - 87)
     else if (65 <=? c) && (c <=? 70) then Some (c - 55)
     else None)%N in
  match v with
  | Some d => if (d <? radix)%N then Some d else None
  | None => None
  end.

(** The longest prefix of decimal digits, and what follows it. *)
Fixpoint span_digits (s : jsstring) : jsstring * jsstring :=
  match s with
  | c :: s' =>
      if is_digit c
      then let '(ds, rest) := span_digits s' in (c :: ds, rest)
      else ([], s)
  | [] => ([], [])
  end.

(** The value of a sequence of digits in [radix]; [None] if one of them
    is not a digit of that radix. *)
Fixpoint digits_value (radix : N) (acc : N) (s : jsstring) : option N :=
  match s with
  | [] => Some acc
  | c :: s' =>
      match digit_value radix c with
      | Some d => digits_value radix (acc * radix + d)%N s'
      | None => None
      end
  end.

(** [ExponentPart], optional and up to the end of the literal. *)
Definition parse_exponent (s : jsstring) : option Z :=
  match s with
  | [] => Some 0%Z
  | c :: s' =>
      if (c =? 101)%N || (c =? 69)%N then
        let '(neg, ds) :=
          match s' with
          | 43%N :: r => (false, r)
          | 45%N :: r => (true, r)
          | _ => (false, s')
          end in
        match ds with
        | [] => None
        | _ =>
            match digits_value 10 0 ds with
            | Some v => Some (if neg then - Z.of_N v else Z.of_N v)%Z
            | None => None
            end
        end
      else None
  end.

(** [StrUnsignedDecimalLiteral] *)
Definition parse_unsigned_decimal (neg : bool) (s : jsstring) : number :=
  if bool_decide (s = js "Infinity") then Infinity neg
  else
    let '(int, r1) := span_digits s in
    let '(frac, r2) :=
      match r1 with
      | 46%N :: r => span_digits r
      | _ => ([], r1)
      end in
    match int, frac with
    | [], [] => NaN
    | _, _ =>
        match digits_value 10 0 (int ++ frac), parse_exponent r2 with
        | Some d, Some x => round_decimal neg d (x - Z.of_nat (length frac))
        | _, _ => NaN
        end
    end.

(** [NonDecimalIntegerLiteral]: the digits after [0x], [0o] or [0b]. *)
Definition parse_radix (radix : N) (s : jsstring) : number :=
  match s with
  | [] => NaN
  | _ =>
      match digits_value radix 0 s with
      | Some v => round_decimal false v 0
      | None => NaN
      end
  end.

(** [StringToNumber], which is [Number(s)] on a string. *)
Definition Number (s : jsstring) : number :=
  match trim s with
  | [] => zero
  | 48%N :: 120%N :: r | 48%N :: 88%N :: r => parse_radix 16 r
  | 48%N :: 111%N :: r | 48%N :: 79%N :: r => parse_radix 8 r
  | 48%N :: 98%N :: r | 48%N :: 66%N :: r => parse_radix 2 r
  | 43%N :: r => parse_unsigned_decimal false r
  | 45%N :: r => parse_unsigned_decimal true r
  | r => parse_unsigned_decimal false r
  end.

(** *** Dates

    A time value is a number of milliseconds since the epoch;
    [toISOString] renders it in UTC as [YYYY-MM-DDTHH:mm:ss.sssZ], with a
    sign and six digits for a year outside [0, 9999]. *)

(** Year, month and day of a number of days since the epoch, in the
    proleptic Gregorian calendar. *)
Definition civil_from_days (day : Z) : Z * Z * Z :=
  (let z := day + 719468 in
   let era := z / 146097 in
   let doe := z - era * 146097 in
   let yoe := (doe - doe / 1460 + doe / 36524 - doe / 146096) / 365 in
   let doy := doe - (365 * yoe + yoe / 4 - yoe / 100) in
   let mp := (5 * doy + 2) / 153 in
   let d := doy - (153 * mp + 2) / 5 + 1 in
   let m := if mp <? 10 then mp + 3 else mp - 9 in
   let y := yoe + era * 400 + (if m <=? 2 then 1 else 0) in
   (y, m, d))%Z.

(** The [width] low decimal digits of [n], most significant first. *)
Fixpoint pad (width : nat) (n : Z) : jsstring :=
  match width with
  | O => []
  | S w => pad w (n / 10) ++ [Z.to_N (48 + n mod 10)]
  end.

Definition year_string (y : Z) : jsstring :=
  (if (0 <=? y) && (y <=? 9999) then pad 4 y
   else (if y <? 0 then 45%N else 43%N) :: pad 6 (Z.abs y))%Z.

(** [new Date(t).toISOString()] *)
Definition toISOString (t : Z) : jsstring :=
  (let day := t / 86400000 in
   let ms := t mod 86400000 in
   let '(y, m, d) := civil_from_days day in
   year_string y ++ js "-" ++ pad 2 m ++ js "-" ++ pad 2 d ++ js "T" ++
   pad 2 (ms / 3600000) ++ js ":" ++ pad 2 (ms / 60000 mod 60) ++ js ":" ++
   pad 2 (ms / 1000 mod 60) ++ js "." ++ pad 3 (ms mod 1000) ++ js "Z")%Z.

(** *** JSON text *)

Definition hex_digit (d : N) : N := (if d <? 10 then 48 + d else 87 + d)%N.

(** [\uXXXX] with lower-case digits. *)
Definition unicode_escape (c : N) : jsstring :=
  js "\u" ++ [hex_digit (c / 4096 mod 16); hex_digit (c / 256 mod 16);
              hex_digit (c / 16 mod 16); hex_digit (c mod 16)]%N.

Definition is_high_surrogate (c : N) : bool := ((55296 <=? c) && (c <=? 56319))%N.
Definition is_low_surrogate (c : N) : bool := ((56320 <=? c) && (c <=? 57343))%N.

(** How [QuoteJSONString] writes one code unit that is not half of a
    surrogate pair. *)
Definition quote_unit (c : N) : jsstring :=
  (if c =? 8 then js "\b"
   else if c =? 9 then js "\t"
   else if c =? 10 then js "\n"
   else if c =? 12 then js "\f"
   else if c =? 13 then js "\r"
   else if c =? 34 then [92; 34]
   else if c =? 92 then [92; 92]
   else if (c <? 32) || is_high_surrogate c || is_low_surrogate c
        then unicode_escape c
   else [c])%N.

Fixpoint quote_units (s : jsstring) : jsstring :=
  match s with
  | [] => []
  | c :: r =>
      match r with
      | c' :: r' =>
          if is_high_surrogate c && is_low_surrogate c'
          then c :: c' :: quote_units r'
          else quote_unit c ++ quote_units r
      | [] => quote_unit c
      end
  end.

(** [JSON.stringify(s)] for a string [s]. *)
Definition quote (s : jsstring) : jsstring := [34%N] ++ quote_units s ++ [34%N].

(** The members of an array or of an object, separated by commas. *)
Fixpoint commas (parts : list jsstring) : jsstring :=
  match parts with
  | [] => []
  | [x] => x
  | x :: rest => x ++ js "," ++ commas rest
  end.

Definition json_array (elements : list jsstring) : jsstring :=
  js "[" ++ commas elements ++ js "]".

Definition json_object (members : list (string * jsstring)) : jsstring :=
  js "{" ++ commas (map (fun kv => quote (js kv.1) ++ js ":" ++ kv.2) members) ++ js "}".

End JS.

Import JS.

(** ** The data of the component *)

(** A [File] picked in the file input: an object, compared by reference. *)
Record File : Type := { file_ref : N }.

(** An object URL issued by [URL.createObjectURL]. *)
Record ObjectURL : Type := { url_id : N }.

Global Instance File_eq_dec : EqDecision File.
Proof. solve_decision. Defined.

Global Instance ObjectURL_eq_dec : EqDecision ObjectURL.
Proof. solve_decision. Defined.

Global Instance ObjectURL_countable : Countable ObjectURL.
Proof.
  apply (inj_countable' url_id (fun n => {| url_id := n |})).
  by intros [n].
Defined.

(** The state variable [form]. *)
Module Form.
Record t : Type := {
  name : jsstring;
  email : jsstring;
  age : jsstring;
  gender : jsstring;
  bio : jsstring;
  hobbies : list jsstring;
  agree : bool;
  profile : option File;
}.

(** The initial value of [useState], which submit and reset restore. *)
Definition initial : t :=
  {| name := []; email := []; age := []; gender := []; bio := [];
     hobbies := []; agree := false; profile := None |}.
End Form.

(** The element of an event, as [handleChange] destructures it. *)
Module Target.
Record t : Type := {
  name : string;
  value : jsstring;
  type : string;
  checked : bool;
}.
End Target.

(** The object [toSave] that [saveSubmission] stores. *)
Module Submission.
Record t : Type := {
  name : jsstring;
  email : jsstring;
  age : jsstring;
  gender : jsstring;
  bio : jsstring;
  hobbies : list jsstring;
  profileUrl : option jsstring;
  timestamp : jsstring;
}.

(** [JSON.stringify] of one record: its properties in the order of the
    object literal. *)
Definition stringify (r : t) : jsstring :=
  json_object
    [("name", quote (name r)); ("email", quote (email r));
     ("age", quote (age r)); ("gender", quote (gender r));
     ("bio", quote (bio r));
     ("hobbies", json_array (map quote (hobbies r)));
     ("profileUrl", match profileUrl r with
                    | Some u => quote u
                    | None => js "null"
                    end);
     ("timestamp", quote (timestamp r))].
End Submission.

(** [JSON.stringify(next)] for the array of records. *)
Definition JSON_stringify (l : list Submission.t) : jsstring :=
  json_array (map Submission.stringify l).

(** The four state variables of [App]. *)
Record State : Type := {
  form : Form.t;
  preview : option ObjectURL;
  errors : gmap string string;
  submissions : list Submission.t;
}.

(** ** The browser *)

(** [localStorage]: the stored items and the room the origin is given.
    [setItem] throws [QuotaExceededError] when the items would outgrow it. *)
Record Storage : Type := {
  items : gmap string jsstring;
  quota : nat;
}.

Definition usage (m : gmap string jsstring) : nat :=
  map_fold (fun k v n => String.length k + length v + n) 0 m.

Inductive exn : Type :=
  | QuotaExceededError
  | SyntaxError.

(** The calls the component makes into the browser, in order. *)
Inductive call : Type :=
  | SetItem (key : string) (value : jsstring) (stored : bool)
  | CreateObjectURL (f : File) (u : ObjectURL)
  | RevokeObjectURL (u : ObjectURL)
  | ReadAsDataURL (f : File).

(** The preview effect as React keeps it between renders: the value of
    its dependency [form.profile] when it last ran, and the object URL
    its cleanup function will revoke, if it returned one. *)
Record Effect : Type := {
  deps : option File;
  cleanup : option ObjectURL;
}.

(** A [FileReader] that has not fired [onload] yet.  Its handler closes
    over the render in which [handleSubmit] ran.  A reader that fails
    fires no [onload], and stays here. *)
Record Reader : Type := {
  reading : File;
  onload_closure : State;
}.

(** The component in its page: the state that React holds for it, and
    what the browser holds. *)
Record World : Type := {
  react : State;
  effect : Effect;
  localStorage : Storage;
  live_urls : gset ObjectURL;
  next_url : N;
  readers : list Reader;
  clock : Z;
  calls : list call;
}.

(** ** Handlers

    A handler reads the state variables of the render it was created in
    (its closure) and acts on the world: it queues state updates, calls
    the browser, and returns or throws.  What it did before a throw
    stays done. *)

Inductive outcome (A : Type) : Type :=
  | Return (a : A)
  | Throw (e : exn).
Arguments Return {A} a.
Arguments Throw {A} e.

Definition M (A : Type) : Type := World → outcome A * World.

Global Instance M_ret : MRet M := fun A a w => (Return a, w).

Global Instance M_bind : MBind M := fun A B k m w =>
  match m w with
  | (Return a, w') => k a w'
  | (Throw e, w') => (Throw e, w')
  end.

Definition update_react (f : State → State) : M unit :=
  fun w =>
    (Return tt,
     {| react := f (react w); effect := effect w;
        localStorage := localStorage w; live_urls := live_urls w;
        next_url := next_url w; readers := readers w; clock := clock w;
        calls := calls w |}).

(** [setForm(updater)] *)
Definition setForm (f : Form.t → Form.t) : M unit :=
  update_react (fun s =>
    {| form := f (form s); preview := preview s; errors := errors s;
       submissions := submissions s |}).

Definition setPreview (p : option ObjectURL) : M unit :=
  update_react (fun s =>
    {| form := form s; preview := p; errors := errors s;
       submissions := submissions s |}).

Definition setErrors (e : gmap string string) : M unit :=
  update_react (fun s =>
    {| form := form s; preview := preview s; errors := e;
       submissions := submissions s |}).

Definition setSubmissions (l : list Submission.t) : M unit :=
  update_react (fun s =>
    {| form := form s; preview := preview s; errors := errors s;
       submissions := l |}).

Definition log (c : call) (w : World) : list call := calls w ++ [c].

(** [localStorage.setItem(key, value)] *)
Definition localStorage_setItem (key : string) (value : jsstring) : M unit :=
  fun w =>
    let items' := <[key := value]> (items (localStorage w)) in
    if (usage items' <=? quota (localStorage w))%nat then
      (Return tt,
       {| react := react w; effect := effect w;
          localStorage := {| items := items'; quota := quota (localStorage w) |};
          live_urls := live_urls w; next_url := next_url w;
          readers := readers w; clock := clock w;
          calls := log (SetItem key value true) w |})
    else
      (Throw QuotaExceededError,
       {| react := react w; effect := effect w;
          localStorage := localStorage w;
          live_urls := live_urls w; next_url := next_url w;
          readers := readers w; clock := clock w;
          calls := log (SetItem key value false) w |}).

(** [URL.createObjectURL(file)]: a URL that was never issued before. *)
Definition URL_createObjectURL (f : File) : M ObjectURL :=
  fun w =>
    let u := {| url_id := next_url w |} in
    (Return u,
     {| react := react w; effect := effect w;
        localStorage := localStorage w;
        live_urls := {[u]} ∪ live_urls w; next_url := N.succ (next_url w);
        readers := readers w; clock := clock w;
        calls := log (CreateObjectURL f u) w |}).

(** [URL.revokeObjectURL(url)] *)
Definition URL_revokeObjectURL (u : ObjectURL) : M unit :=
  fun w =>
    (Return tt,
     {| react := react w; effect := effect w;
        localStorage := localStorage w;
        live_urls := live_urls w ∖ {[u]}; next_url := next_url w;
        readers := readers w; clock := clock w;
        calls := log (RevokeObjectURL u) w |}).

(** [reader.onload = ...; reader.readAsDataURL(file)] *)
Definition FileReader_readAsDataURL (f : File) (closure : State) : M unit :=
  fun w =>
    (Return tt,
     {| react := react w; effect := effect w;
        localStorage := localStorage w;
        live_urls := live_urls w; next_url := next_url w;
        readers := readers w ++ [{| reading := f; onload_closure := closure |}];
        clock := clock w;
        calls := log (ReadAsDataURL f) w |}).

(** [new Date().toISOString()] *)
Definition Date_now_toISOString : M jsstring :=
  fun w => (Return (toISOString (clock w)), w).

(** ** The component *)

(** The key of the stored item. *)
Definition KEY : string := "react_form_submissions".

(** [Object.keys(o)] of an object used as a map. *)
Definition Object_keys {V} (o : gmap string V) : list string :=
  (map_to_list o).*1.

(** [{ ...f, [key]: value }] for a string [value].  The form is a record
    of the eight properties of its initial state, each at the type it has
    there.  A write to a property of another name adds one that nothing
    in the component reads; a write of a string to [hobbies], [agree] or
    [profile] would change the type of the property, which no element
    that the component renders does (see [rendered]).  In both cases the
    record is as it was. *)
Definition assign_string (key : string) (value : jsstring) (f : Form.t) : Form.t :=
  if bool_decide (key = "name") then
    {| Form.name := value; Form.email := Form.email f; Form.age := Form.age f;
       Form.gender := Form.gender f; Form.bio := Form.bio f;
       Form.hobbies := Form.hobbies f; Form.agree := Form.agree f;
       Form.profile := Form.profile f |}
  else if bool_decide (key = "email") then
    {| Form.name := Form.name f; Form.email := value; Form.age := Form.age f;
       Form.gender := Form.gender f; Form.bio := Form.bio f;
       Form.hobbies := Form.hobbies f; Form.agree := Form.agree f;
       Form.profile := Form.profile f |}
  else if bool_decide (key = "age") then
    {| Form.name := Form.name f; Form.email := Form.email f; Form.age := value;
       Form.gender := Form.gender f; Form.bio := Form.bio f;
       Form.hobbies := Form.hobbies f; Form.agree := Form.agree f;
       Form.profile := Form.profile f |}
  else if bool_decide (key = "gender") then
    {| Form.name := Form.name f; Form.email := Form.email f; Form.age := Form.age f;
       Form.gender := value; Form.bio := Form.bio f;
       Form.hobbies := Form.hobbies f; Form.agree := Form.agree f;
       Form.profile := Form.profile f |}
  else if bool_decide (key = "bio") then
    {| Form.name := Form.name f; Form.email := Form.email f; Form.age := Form.age f;
       Form.gender := Form.gender f; Form.bio := value;
       Form.hobbies := Form.hobbies f; Form.agree := Form.agree f;
       Form.profile := Form.profile f |}
  else f.

(** [{ ...f, [key]: checked }] for a boolean, likewise. *)
Definition assign_boolean (key : string) (checked : bool) (f : Form.t) : Form.t :=
  if bool_decide (key = "agree") then
    {| Form.name := Form.name f; Form.email := Form.email f; Form.age := Form.age f;
       Form.gender := Form.gender f; Form.bio := Form.bio f;
       Form.hobbies := Form.hobbies f; Form.agree := checked;
       Form.profile := Form.profile f |}
  else f.

(** [{ ...f, hobbies: next }] *)
Definition assign_hobbies (next : list jsstring) (f : Form.t) : Form.t :=
  {| Form.name := Form.name f; Form.email := Form.email f; Form.age := Form.age f;
     Form.gender := Form.gender f; Form.bio := Form.bio f;
     Form.hobbies := next; Form.agree := Form.agree f;
     Form.profile := Form.profile f |}.

(** [{ ...f, profile: file }] *)
Definition assign_profile (file : option File) (f : Form.t) : Form.t :=
  {| Form.name := Form.name f; Form.email := Form.email f; Form.age := Form.age f;
     Form.gender := Form.gender f; Form.bio := Form.bio f;
     Form.hobbies := Form.hobbies f; Form.agree := Form.agree f;
     Form.profile := file |}.

(** [handleChange]: [next] is computed from the [form] of the closure,
    the updater is applied to the state at hand. *)
Definition handleChange (c : State) (e : Target.t) : M unit :=
  if bool_decide (Target.type e = "checkbox") && bool_decide (Target.name e = "hobbies")
  then
    let next :=
      if Target.checked e
      then Form.hobbies (form c) ++ [Target.value e]
      else filter (fun h => h ≠ Target.value e) (Form.hobbies (form c)) in
    setForm (assign_hobbies next)
  else if bool_decide (Target.type e = "checkbox")
  then setForm (assign_boolean (Target.name e) (Target.checked e))
  else setForm (assign_string (Target.name e) (Target.value e)).

(** [handleFile], on the [files] of the input. *)
Definition handleFile (files : list File) : M unit :=
  let file := head files in
  setForm (assign_profile file).

(** [/^[^@\s]+@[^@\s]+\.[^@\s]+$/] *)
Definition not_at_or_space (c : N) : bool := negb ((c =? 64)%N || is_space c).

Definition email_pattern : regex :=
  Cat (Plus (Class not_at_or_space))
    (Cat (Class (N.eqb 64))
       (Cat (Plus (Class not_at_or_space))
          (Cat (Class (N.eqb 46))
             (Plus (Class not_at_or_space))))).

(** [validate], on the [form] of the closure. *)
Definition validate (form : Form.t) : gmap string string :=
  let e : gmap string string := ∅ in
  let e :=
    if negb (truthy (trim (Form.name form)))
    then <["name" := "Name is required."]> e else e in
  let e :=
    if negb (truthy (trim (Form.email form)))
    then <["email" := "Email is required."]> e
    else if negb (test email_pattern (Form.email form))
    then <["email" := "Enter a valid email."]> e else e in
  let e :=
    if truthy (Form.age form) &&
       (isNaN (Number (Form.age form)) || le (Number (Form.age form)) zero)
    then <["age" := "Enter a valid age."]> e else e in
  let e :=
    if negb (truthy (Form.gender form))
    then <["gender" := "Please select your gender."]> e else e in
  let e :=
    if negb (Form.agree form)
    then <["agree" := "You must agree to the terms."]> e else e in
  e.

(** [saveSubmission(submitted)], where [submitted] is
    [{ ...form, profileUrl }]. *)
Definition toSave (submitted : Form.t) (profileUrl : option jsstring)
    (now : jsstring) : Submission.t :=
  {| Submission.name := Form.name submitted;
     Submission.email := Form.email submitted;
     Submission.age := Form.age submitted;
     Submission.gender := Form.gender submitted;
     Submission.bio := Form.bio submitted;
     Submission.hobbies := Form.hobbies submitted;
     Submission.profileUrl := profileUrl;
     Submission.timestamp := now |}.

Definition saveSubmission (c : State) (submitted : Form.t)
    (profileUrl : option jsstring) : M unit :=
  now ← Date_now_toISOString;
  let next := toSave submitted profileUrl now :: submissions c in
  setSubmissions next;;
  localStorage_setItem KEY (JSON_stringify next);;
  setForm (fun _ => Form.initial);;
  setPreview None;;
  setErrors ∅.

(** [handleSubmit] *)
Definition handleSubmit (c : State) : M unit :=
  let v := validate (form c) in
  setErrors v;;
  if (0 <? length (Object_keys v))%nat then mret tt
  else
    match Form.profile (form c) with
    | Some file => FileReader_readAsDataURL file c
    | None => saveSubmission c (form c) None
    end.

(** The [onload] handler of the reader that [handleSubmit] started, with
    [reader.result]. *)
Definition reader_onload (c : State) (result : jsstring) : M unit :=
  saveSubmission c (form c) (Some result).

(** [handleDelete] *)
Definition handleDelete (c : State) (ts : jsstring) : M unit :=
  let next := filter (fun s => Submission.timestamp s ≠ ts) (submissions c) in
  setSubmissions next;;
  localStorage_setItem KEY (JSON_stringify next).

(** The [onClick] of the Reset button. *)
Definition handleReset : M unit :=
  setForm (fun _ => Form.initial);;
  setPreview None;;
  setErrors ∅.

(** The body of the preview effect; its result is the object URL that the
    cleanup function it returns will revoke, if it returns one. *)
Definition preview_effect (c : State) : M (option ObjectURL) :=
  match Form.profile (form c) with
  | None => setPreview None;; mret None
  | Some file =>
      objectUrl ← URL_createObjectURL file;
      setPreview (Some objectUrl);;
      mret (Some objectUrl)
  end.

Definition set_effect (e : Effect) : M unit :=
  fun w =>
    (Return tt,
     {| react := react w; effect := e;
        localStorage := localStorage w; live_urls := live_urls w;
        next_url := next_url w; readers := readers w; clock := clock w;
        calls := calls w |}).

(** What React does with [useEffect(..., [form.profile])] once a render
    is committed: when the dependency is not the one of the last run, the
    cleanup function of that run is called, then the effect runs again. *)
Definition commit_effects : M unit :=
  fun w =>
    let c := react w in
    if bool_decide (deps (effect w) = Form.profile (form c)) then (Return tt, w)
    else
      ((match cleanup (effect w) with
        | Some objectUrl => URL_revokeObjectURL objectUrl
        | None => mret tt
        end;;
        cl ← preview_effect c;
        set_effect {| deps := Form.profile (form c); cleanup := cl |}) w).

(** The effect that loads the stored submissions on mount.
    [JSON_parse] reads the array of records back, or fails. *)
Definition load_effect (JSON_parse : jsstring → option (list Submission.t)) : M unit :=
  fun w =>
    match items (localStorage w) !! KEY with
    | Some saved =>
        if truthy saved then
          match JSON_parse saved with
          | Some l => setSubmissions l w
          | None => (Throw SyntaxError, w)
          end
        else (Return tt, w)
    | None => (Return tt, w)
    end.

(** The page before the component renders: nothing issued, nothing read. *)
Definition page (storage : Storage) (now : Z) : World :=
  {| react := {| form := Form.initial; preview := None; errors := ∅;
                 submissions := [] |};
     effect := {| deps := None; cleanup := None |};
     localStorage := storage; live_urls := ∅; next_url := 0;
     readers := []; clock := now; calls := [] |}.

(** The first render and its two effects. *)
Definition mount (JSON_parse : jsstring → option (list Submission.t))
    (storage : Storage) (now : Z) : outcome unit * World :=
  (load_effect JSON_parse;;
   cl ← preview_effect (react (page storage now));
   set_effect {| deps := Form.profile (form (react (page storage now)));
                 cleanup := cl |}) (page storage now).

(** ** Events *)

Inductive Event : Type :=
  | Change (e : Target.t)
  | FileChange (files : list File)
  | Submit
  | Reset
  | Delete (ts : jsstring)
  | ReaderLoad (i : nat) (result : jsstring).

Definition set_clock (now : Z) : M unit :=
  fun w =>
    (Return tt,
     {| react := react w; effect := effect w;
        localStorage := localStorage w; live_urls := live_urls w;
        next_url := next_url w; readers := readers w; clock := now;
        calls := calls w |}).

Definition take_reader (i : nat) : M (option Reader) :=
  fun w =>
    (Return (readers w !! i),
     {| react := react w; effect := effect w;
        localStorage := localStorage w; live_urls := live_urls w;
        next_url := next_url w; readers := delete i (readers w);
        clock := clock w; calls := calls w |}).

(** The handler an event runs, created by the render of state [c]. *)
Definition handler (c : State) (ev : Event) : M unit :=
  match ev with
  | Change e => handleChange c e
  | FileChange files => handleFile files
  | Submit => handleSubmit c
  | Reset => handleReset
  | Delete ts => handleDelete c ts
  | ReaderLoad i result =>
      r ← take_reader i;
      match r with
      | Some r => reader_onload (onload_closure r) result
      | None => mret tt
      end
  end.

(** One event at time [now]: its handler runs to its end or to a throw,
    the queued updates are rendered, and the effects are committed.  No
    handler of the component catches: a [Throw] here is an uncaught
    error. *)
Definition dispatch (now : Z) (ev : Event) (w : World) : outcome unit * World :=
  let w0 := (set_clock now w).2 in
  let '(o, w1) := handler (react w0) ev w0 in
  (o, (commit_effects w1).2).

Fixpoint run (evs : list (Z * Event)) (w : World) : World :=
  match evs with
  | [] => w
  | (now, ev) :: evs' => run evs' (dispatch now ev w).2
  end.

(** A whole submission: the submit event at [now] and, when it started a
    reader, the [onload] of that reader at [later] with [result]. *)
Definition submit (now later : Z) (result : jsstring) (w : World) : World :=
  let w1 := (dispatch now Submit w).2 in
  if (length (readers w) <? length (readers w1))%nat
  then (dispatch later (ReaderLoad (length (readers w)) result) w1).2
  else w1.

(** ** Notions of the specification *)

(** *** Emails *)

(** The code units that are neither [@] nor white space. *)
Definition plain (s : jsstring) : Prop :=
  Forall (fun c => not_at_or_space c = true) s.

(** The shape [x@y.z]: three non-empty runs of code units that are neither
    [@] nor white space, the first two joined by [@], the last two by a
    [.]. *)
Definition email_shape (s : jsstring) : Prop :=
  ∃ x y z, s = x ++ [64%N] ++ y ++ [46%N] ++ z ∧
           x ≠ [] ∧ y ≠ [] ∧ z ≠ [] ∧ plain x ∧ plain y ∧ plain z.

(** *** The rendered form *)

(** The change event of the rendered checkbox of hobby [h]: the box is
    controlled by [form.hobbies.includes(h)], and a click inverts it. *)
Definition hobby_click (c : State) (h : jsstring) : Target.t :=
  {| Target.name := "hobbies"; Target.value := h; Target.type := "checkbox";
     Target.checked := negb (bool_decide (h ∈ Form.hobbies (form c))) |}.

(** The values of the radio buttons and of the hobby checkboxes that the
    form renders. *)
Definition genders : list jsstring := [js "male"; js "female"; js "other"].

Definition hobby_catalog : list jsstring :=
  [js "coding"; js "reading"; js "music"; js "sports"].

(** The events that the elements rendered for state [c] can emit: a text
    typed into one of the text inputs or into the textarea, a radio
    button chosen, a hobby or the agreement toggled, files picked, the
    form submitted or reset, a listed submission deleted, a reader done. *)
Inductive rendered (c : State) : Event → Prop :=
  | rendered_text k v :
      k ∈ ["name"; "email"; "age"] →
      rendered c (Change {| Target.name := k; Target.value := v;
                            Target.type := "text"; Target.checked := false |})
  | rendered_gender g :
      g ∈ genders →
      rendered c (Change {| Target.name := "gender"; Target.value := g;
                            Target.type := "radio"; Target.checked := true |})
  | rendered_bio v :
      rendered c (Change {| Target.name := "bio"; Target.value := v;
                            Target.type := "textarea"; Target.checked := false |})
  | rendered_hobby h :
      h ∈ hobby_catalog → rendered c (Change (hobby_click c h))
  | rendered_agree :
      rendered c (Change {| Target.name := "agree"; Target.value := js "on";
                            Target.type := "checkbox";
                            Target.checked := negb (Form.agree (form c)) |})
  | rendered_file files : rendered c (FileChange files)
  | rendered_submit : rendered c Submit
  | rendered_reset : rendered c Reset
  | rendered_delete s :
      s ∈ submissions c → rendered c (Delete (Submission.timestamp s))
  | rendered_load i result : rendered c (ReaderLoad i result).

(** A run of events, each emitted by the form as rendered when it
    occurs. *)
Fixpoint rendered_run (w : World) (evs : list (Z * Event)) : Prop :=
  match evs with
  | [] => True
  | (now, ev) :: evs' =>
      rendered (react w) ev ∧ rendered_run (dispatch now ev w).2 evs'
  end.

(** A check or uncheck event on the hobbies collection. *)
Definition hobby_event (h : jsstring) (checked : bool) : Target.t :=
  {| Target.name := "hobbies"; Target.value := h; Target.type := "checkbox";
     Target.checked := checked |}.

(** *** The store *)

(** The durable snapshot: the stored item, if any. *)
Definition snapshot (w : World) : option jsstring :=
  items (localStorage w) !! KEY.

(** The snapshot is the one of the submissions in memory. *)
Definition in_sync (w : World) : Prop :=
  snapshot w = Some (JSON_stringify (submissions (react w))).

(** There is room in store for [value] as the snapshot. *)
Definition fits (value : jsstring) (w : World) : Prop :=
  usage (<[KEY := value]> (items (localStorage w))) ≤ quota (localStorage w).

Global Instance fits_dec value w : Decision (fits value w).
Proof. unfold fits. apply _. Defined.

(** The items in store respect the quota. *)
Definition within_quota (w : World) : Prop :=
  usage (items (localStorage w)) ≤ quota (localStorage w).

(** A call is a [setItem]. *)
Definition is_write (c : call) : bool :=
  match c with SetItem _ _ _ => true | _ => false end.

(** The [setItem] calls in a sequence of calls. *)
Definition written (cs : list call) : list call := List.filter is_write cs.

(** The world after [saveSubmission] has stored [next]. *)
Definition saved (next : list Submission.t) (w : World) : World :=
  {| react := {| form := Form.initial; preview := None; errors := ∅;
                 submissions := next |};
     effect := effect w;
     localStorage :=
       {| items := <[KEY := JSON_stringify next]> (items (localStorage w));
          quota := quota (localStorage w) |};
     live_urls := live_urls w; next_url := next_url w; readers := readers w;
     clock := clock w;
     calls := calls w ++ [SetItem KEY (JSON_stringify next) true] |}.

(** The world after [saveSubmission] has failed to store [next]. *)
Definition unsaved (next : list Submission.t) (w : World) : World :=
  {| react := {| form := form (react w); preview := preview (react w);
                 errors := errors (react w); submissions := next |};
     effect := effect w; localStorage := localStorage w;
     live_urls := live_urls w; next_url := next_url w; readers := readers w;
     clock := clock w;
     calls := calls w ++ [SetItem KEY (JSON_stringify next) false] |}.

(** Event [ev], at time [now] in world [w], reaches the persist step of a
    submit with the sequence [next] to store: a submit of a valid form
    without image, or the [onload] of a reader that a submit started. *)
Inductive persists (w : World) (now : Z) : Event → list Submission.t → Prop :=
  | persists_submit :
      validate (form (react w)) = ∅ →
      Form.profile (form (react w)) = None →
      persists w now Submit
        (toSave (form (react w)) None (toISOString now) :: submissions (react w))
  | persists_load i result rd :
      readers w !! i = Some rd →
      persists w now (ReaderLoad i result)
        (toSave (form (onload_closure rd)) (Some result) (toISOString now)
           :: submissions (onload_closure rd)).

(** *** Object URLs *)

(** The object URLs that are live after a sequence of calls. *)
Definition after_call (live : gset ObjectURL) (c : call) : gset ObjectURL :=
  match c with
  | CreateObjectURL _ u => {[u]} ∪ live
  | RevokeObjectURL u => live ∖ {[u]}
  | _ => live
  end.

Definition live_after (cs : list call) : gset ObjectURL :=
  foldl after_call ∅ cs.

(** A call creates or revokes an object URL. *)
Definition is_url_call (c : call) : bool :=
  match c with
  | CreateObjectURL _ _ | RevokeObjectURL _ => true
  | _ => false
  end.

(** A sequence of calls in which every object URL is created when none
    is live. *)
Inductive disciplined : list call → Prop :=
  | disciplined_nil : disciplined []
  | disciplined_create cs f u :
      disciplined cs → live_after cs = ∅ →
      disciplined (cs ++ [CreateObjectURL f u])
  | disciplined_other cs c :
      disciplined cs → (∀ f u, c ≠ CreateObjectURL f u) →
      disciplined (cs ++ [c]).

(** The effects are committed: the preview effect has run for the
    profile of the form. *)
Definition settled (w : World) : Prop :=
  deps (effect w) = Form.profile (form (react w)).

(** The live object URLs are those the calls left, and there is none but
    the one that the cleanup function of the preview effect will revoke,
    which the effect returned for a profile that is not null. *)
Definition owned (w : World) : Prop :=
  disciplined (calls w) ∧
  live_urls w = live_after (calls w) ∧
  live_urls w = from_option singleton ∅ (cleanup (effect w)) ∧
  (cleanup (effect w) = None ↔ deps (effect w) = None).

(** *** Timestamps *)

(** The time values of a [Date]: at most 100,000,000 days from the epoch
    on either side. *)
Definition time_value (t : Z) : Prop :=
  (-8640000000000000 ≤ t ≤ 8640000000000000)%Z.

(** When and with what image a submission of form [f] is saved, by
    whether a reader is started for its profile: at the submit, or at the
    [onload] of the reader with its result. *)
Definition created_at (f : Form.t) (now later : Z) : Z :=
  match Form.profile f with Some _ => later | None => now end.

Definition image (f : Form.t) (result : jsstring) : option jsstring :=
  match Form.profile f with Some _ => Some result | None => None end.

(** *** The calendar, day by day of an era of 400 years

    [civil_from_days] splits a day number into an era and a day of the
    era; [civil_of_doe] is what it computes from the day of the era, and
    [doe_of_civil] goes back. *)
Definition civil_of_doe (doe : Z) : Z * Z * Z :=
  (let yoe := (doe - doe / 1460 + doe / 36524 - doe / 146096) / 365 in
   let doy := doe - (365 * yoe + yoe / 4 - yoe / 100) in
   let mp := (5 * doy + 2) / 153 in
   let d := doy - (153 * mp + 2) / 5 + 1 in
   let m := if mp <? 10 then mp + 3 else mp - 9 in
   (yoe + (if m <=? 2 then 1 else 0), m, d))%Z.

Definition doe_of_civil (y m d : Z) : Z :=
  (let yoe := if m <=? 2 then y - 1 else y in
   let mp := if m <=? 2 then m + 9 else m - 3 in
   let doy := (153 * mp + 2) / 5 + d - 1 in
   yoe * 365 + yoe / 4 - yoe / 100 + doy)%Z.

(** The day [doe] of the era, if it is one, has a month and a day of the
    month in range, a year of the era in range, and is found back. *)
Definition day_ok (doe : Z) : bool :=
  (let '(y, m, d) := civil_of_doe doe in
   (146097 <=? doe) ||
   ((1 <=? m) && (m <=? 12) && (1 <=? d) && (d <=? 31) &&
    (0 <=? (if m <=? 2 then y - 1 else y)) &&
    ((if m <=? 2 then y - 1 else y) <=? 399) &&
    (doe_of_civil y m d =? doe)))%Z.

(** [day_ok] on the [2^k] days from [lo]. *)
Fixpoint days_ok (k : nat) (lo : Z) : bool :=
  match k with
  | O => day_ok lo
  | S k' => days_ok k' lo && days_ok k' (lo + 2 ^ Z.of_nat k')%Z
  end.

(** ** Further notions, of the code *)

(** *** The validator as a whole *)

(** A string of white space only, the empty one included. *)
Definition blank (s : jsstring) : Prop :=
  Forall (fun c => is_space c = true) s.

(** A string of decimal digits. *)
Definition digits (s : jsstring) : Prop := Forall (fun c => is_digit c = true) s.

(** What [validate] asks of a form. *)
Definition submittable (f : Form.t) : Prop :=
  ¬ blank (Form.name f) ∧
  email_shape (Form.email f) ∧
  (Form.age f = [] ∨ gt (Number (Form.age f)) zero = true) ∧
  Form.gender f ≠ [] ∧
  Form.agree f = true.

(** The property names under which [validate] reports. *)
Definition error_keys : list string := ["name"; "email"; "age"; "gender"; "agree"].

(** The errors of the initial form: what is required is missing. *)
Definition required_errors : gmap string string :=
  {[ "name" := "Name is required."; "email" := "Email is required.";
     "gender" := "Please select your gender.";
     "agree" := "You must agree to the terms." ]}.

(** *** Events *)

(** The names of the properties of the form, and of those that hold a
    string. *)
Definition form_keys : list string :=
  ["name"; "email"; "age"; "gender"; "bio"; "hobbies"; "agree"; "profile"].

Definition string_keys : list string := ["name"; "email"; "age"; "gender"; "bio"].

(** The string that the form holds under [k], if [k] is the name of one. *)
Definition field (k : string) (f : Form.t) : option jsstring :=
  if bool_decide (k = "name") then Some (Form.name f)
  else if bool_decide (k = "email") then Some (Form.email f)
  else if bool_decide (k = "age") then Some (Form.age f)
  else if bool_decide (k = "gender") then Some (Form.gender f)
  else if bool_decide (k = "bio") then Some (Form.bio f)
  else None.

(** An event that keeps the types of the properties of the form: its
    change, if it is one, toggles a hobby, writes a boolean to [agree] or
    a string to a property that holds a string, or writes to a name that
    is no property of the form.  These are the events that the form as a
    record follows (see [assign_string]). *)
Definition typed (ev : Event) : bool :=
  match ev with
  | Change e =>
      if bool_decide (Target.type e = "checkbox")
      then bool_decide (Target.name e ∈ ["hobbies"; "agree"] ∨
                        Target.name e ∉ form_keys)
      else bool_decide (Target.name e ∉ ["hobbies"; "agree"; "profile"])
  | _ => true
  end.

(** A run of such events. *)
Definition typed_run (evs : list (Z * Event)) : Prop :=
  Forall (fun tev => typed tev.2 = true) evs.

(** The event is the [onload] of a reader. *)
Definition is_load (ev : Event) : bool :=
  match ev with ReaderLoad _ _ => true | _ => false end.

(** *** The preview *)

(** The preview on display is the object URL that the cleanup function
    in place will revoke, or none when there is none. *)
Definition shown (w : World) : Prop :=
  preview (react w) = cleanup (effect w).

(** The calls that create or revoke an object URL, in a sequence of calls. *)
Definition url_calls (cs : list call) : list call := List.filter is_url_call cs.

(** The object URL that the cleanup function in place will revoke is the
    last that was created, and it was created for the profile of the
    form; without a profile there is no cleanup function, and the last
    object URL created, if any, was revoked. *)
Definition tied (w : World) : Prop :=
  match Form.profile (form (react w)) with
  | Some f =>
      ∃ u, cleanup (effect w) = Some u ∧
           last (url_calls (calls w)) = Some (CreateObjectURL f u)
  | None =>
      cleanup (effect w) = None ∧
      ∀ f u, last (url_calls (calls w)) ≠ Some (CreateObjectURL f u)
  end.

(** *** What the form and the records hold *)

(** The choices of a form are among those that the form renders. *)
Definition choices (f : Form.t) : Prop :=
  (Form.gender f = [] ∨ Form.gender f ∈ genders) ∧
  Form.hobbies f ⊆ hobby_catalog ∧
  NoDup (Form.hobbies f).

(** So are the choices of a record. *)
Definition chosen (s : Submission.t) : Prop :=
  Submission.gender s ∈ genders ∧
  Submission.hobbies s ⊆ hobby_catalog ∧
  NoDup (Submission.hobbies s).

(** What [validate] asks of a form, as found in a record. *)
Definition well_formed (s : Submission.t) : Prop :=
  ¬ blank (Submission.name s) ∧
  email_shape (Submission.email s) ∧
  (Submission.age s = [] ∨ gt (Number (Submission.age s)) zero = true) ∧
  Submission.gender s ≠ [].

(** A record that [saveSubmission] makes of a form of which [Q] holds. *)
Definition made_from (Q : Form.t → Prop) (s : Submission.t) : Prop :=
  ∃ f url ts, Q f ∧ s = toSave f url ts.

(** The records of [l] were loaded or made of such a form. *)
Definition records_from (Q : Form.t → Prop) (loaded l : list Submission.t) : Prop :=
  ∀ s, s ∈ l → s ∈ loaded ∨ made_from Q s.

(** So are the submissions in memory and those held by the handlers of
    the pending readers, which hold such a form too. *)
Definition records_inv (Q : Form.t → Prop) (loaded : list Submission.t)
    (w : World) : Prop :=
  records_from Q loaded (submissions (react w)) ∧
  ∀ rd, rd ∈ readers w →
    Q (form (onload_closure rd)) ∧
    records_from Q loaded (submissions (onload_closure rd)).

(** ** Sample data *)

Definition with_email (s : string) : Form.t :=
  {| Form.name := []; Form.email := js s; Form.age := []; Form.gender := [];
     Form.bio := []; Form.hobbies := []; Form.agree := false;
     Form.profile := None |}.

Definition with_age (s : string) : Form.t :=
  {| Form.name := []; Form.email := []; Form.age := js s; Form.gender := [];
     Form.bio := []; Form.hobbies := []; Form.agree := false;
     Form.profile := None |}.

(** The form of the scenario: Ana, with no image. *)
Definition ana : Form.t :=
  {| Form.name := js "Ana"; Form.email := js "ana@x.com"; Form.age := [];
     Form.gender := js "female"; Form.bio := []; Form.hobbies := [];
     Form.agree := true; Form.profile := None |}.

(** A form with one hobby checked. *)
Definition coder : Form.t :=
  {| Form.name := []; Form.email := []; Form.age := []; Form.gender := [];
     Form.bio := []; Form.hobbies := [js "coding"]; Form.agree := false;
     Form.profile := None |}.

(** A stored record of [name] with the timestamp [ts]. *)
Definition record_of (name ts : string) : Submission.t :=
  {| Submission.name := js name; Submission.email := js "x@y.z";
     Submission.age := []; Submission.gender := js "other";
     Submission.bio := []; Submission.hobbies := [];
     Submission.profileUrl := None; Submission.timestamp := js ts |}.

(** A world in which the component shows [f] and [l], with [stored] in
    store and a quota of [q]. *)
Definition showing (f : Form.t) (l : list Submission.t)
    (stored : gmap string jsstring) (q : nat) : World :=
  {| react := {| form := f; preview := None; errors := ∅; submissions := l |};
     effect := {| deps := None; cleanup := None |};
     localStorage := {| items := stored; quota := q |};
     live_urls := ∅; next_url := 0; readers := []; clock := 0; calls := [] |}.

(** The events by which Ana fills in the form, all at time [t]. *)
Definition fill_ana (t : Z) : list (Z * Event) :=
  [(t, Change {| Target.name := "name"; Target.value := js "Ana";
                 Target.type := "text"; Target.checked := false |});
   (t, Change {| Target.name := "email"; Target.value := js "ana@x.com";
                 Target.type := "text"; Target.checked := false |});
   (t, Change {| Target.name := "gender"; Target.value := js "female";
                 Target.type := "radio"; Target.checked := true |});
   (t, Change {| Target.name := "agree"; Target.value := js "on";
                 Target.type := "checkbox"; Target.checked := true |})].

(** An image, and the form of Ana with this image picked. *)
Definition portrait : File := {| file_ref := 1 |}.

Definition ana_with_image : Form.t :=
  {| Form.name := js "Ana"; Form.email := js "ana@x.com"; Form.age := [];
     Form.gender := js "female"; Form.bio := []; Form.hobbies := [];
     Form.agree := true; Form.profile := Some portrait |}.

(** Another valid form, with every field filled in but the image. *)
Definition bob : Form.t :=
  {| Form.name := js "Bob Ray"; Form.email := js "bob@site.org";
     Form.age := js "42"; Form.gender := js "male"; Form.bio := js "Hi.";
     Form.hobbies := [js "music"; js "sports"]; Form.agree := true;
     Form.profile := None |}.

(** A [JSON.parse] that reads the snapshot of [l] back, and nothing else. *)
Definition parse_only (l : list Submission.t) (s : jsstring) :
    option (list Submission.t) :=
  if bool_decide (s = JSON_stringify l) then Some l else None.

(** A store that holds the snapshot of [l] and has no room for more. *)
Definition full_store (l : list Submission.t) : Storage :=
  {| items := {[ KEY := JSON_stringify l ]};
     quota := usage {[ KEY := JSON_stringify l ]} |}.

(** Typing [v] into the textarea, at time [t]. *)
Definition type_bio (t : Z) (v : jsstring) : Z * Event :=
  (t, Change {| Target.name := "bio"; Target.value := v;
                Target.type := "textarea"; Target.checked := false |}).

(** The component, mounted at time 0 on an empty store. *)
Definition fresh : World :=
  (mount (fun _ => None) {| items := ∅; quota := 1000 |} 0).2.

(** A world that shows the submissions [l], with their snapshot in store. *)
Definition listing (l : list Submission.t) : World :=
  showing Form.initial l {[ KEY := JSON_stringify l ]} 1000.

(** * Properties *)

(** ** Regular expressions: [test] decides [matches] *)

Lemma matches_cat_inv r1 r2 s :
  matches (Cat r1 r2) s → ∃ s1 s2, s = s1 ++ s2 ∧ matches r1 s1 ∧ matches r2 s2.
Proof. inversion 1; subst; eauto. Qed.

Lemma matches_alt_inv r1 r2 s :
  matches (Alt r1 r2) s → matches r1 s ∨ matches r2 s.
Proof. inversion 1; subst; eauto. Qed.

Lemma matches_class_inv p s :
  matches (Class p) s → ∃ c, s = [c] ∧ p c = true.
Proof. inversion 1; subst; eauto. Qed.

Lemma matches_eps_inv s : matches Eps s → s = [].
Proof. by inversion 1. Qed.

Lemma matches_void_inv s : ¬ matches Void s.
Proof. inversion 1. Qed.

Lemma matches_cat_cons r1 r2 c s1 s2 :
  matches r1 (c :: s1) → matches r2 s2 → matches (Cat r1 r2) (c :: s1 ++ s2).
Proof. intros. change (c :: s1 ++ s2) with ((c :: s1) ++ s2). by constructor. Qed.

Lemma nullable_matches r : nullable r = true ↔ matches r [].
Proof.
  induction r as [| |p|r1 IH1 r2 IH2|r1 IH1 r2 IH2|r IH]; simpl.
  - split; [done|]. by intros ?%matches_void_inv.
  - split; [intros _; constructor|done].
  - split; [done|]. by intros (c & ? & _)%matches_class_inv.
  - rewrite andb_true_iff, IH1, IH2. split.
    + intros [H1 H2]. change (@nil N) with (@nil N ++ []). by constructor.
    + intros (s1 & s2 & E & H1 & H2)%matches_cat_inv.
      symmetry in E. apply app_eq_nil in E as [-> ->]. done.
  - rewrite orb_true_iff, IH1, IH2. split.
    + intros [H|H]; [by apply m_alt_l|by apply m_alt_r].
    + apply matches_alt_inv.
  - split; [intros _; constructor|done].
Qed.

(** A non-empty match of [r*] begins with a non-empty match of [r]. *)
Lemma matches_star_cons r c s :
  matches (Star r) (c :: s) →
  ∃ s1 s2, s = s1 ++ s2 ∧ matches r (c :: s1) ∧ matches (Star r) s2.
Proof.
  intros H. remember (Star r) as r' eqn:Er. remember (c :: s) as s' eqn:Es.
  revert Er Es.
  induction H as [| | | | | |r0 s1 s2 H1 _ H2 IH2]; intros Er Es; try discriminate.
  injection Er as ->. destruct s1 as [|c1 s1]; simpl in Es.
  - by apply IH2.
  - injection Es as -> <-. by exists s1, s2.
Qed.

Lemma deriv_matches c r s : matches (deriv c r) s ↔ matches r (c :: s).
Proof.
  revert s.
  induction r as [| |p|r1 IH1 r2 IH2|r1 IH1 r2 IH2|r IH]; intros s; simpl.
  - split; by intros ?%matches_void_inv.
  - split; [by intros ?%matches_void_inv|by intros ?%matches_eps_inv].
  - destruct (p c) eqn:Hp; split.
    + intros ->%matches_eps_inv. by constructor.
    + intros (c' & [= <- ->] & _)%matches_class_inv. constructor.
    + by intros ?%matches_void_inv.
    + intros (c' & [= <- ->] & ?)%matches_class_inv. congruence.
  - assert (matches (Cat (deriv c r1) r2) s → matches (Cat r1 r2) (c :: s)) as Hl.
    { intros (s1 & s2 & -> & H1 & H2)%matches_cat_inv.
      apply matches_cat_cons; [by apply IH1|done]. }
    assert (matches (Cat r1 r2) (c :: s) →
            matches (Cat (deriv c r1) r2) s ∨
            (nullable r1 = true ∧ matches (deriv c r2) s)) as Hr.
    { intros (s1 & s2 & E & H1 & H2)%matches_cat_inv.
      destruct s1 as [|c1 s1]; simpl in E.
      - subst s2. right. split; [by apply nullable_matches|by apply IH2].
      - injection E as -> ->. left. constructor; [by apply IH1|done]. }
    destruct (nullable r1) eqn:Hn; split.
    + intros [H|H]%matches_alt_inv; [by apply Hl|].
      change (c :: s) with ([] ++ c :: s).
      constructor; [by apply nullable_matches|by apply IH2].
    + intros H. destruct (Hr H) as [?|[_ ?]]; [by apply m_alt_l|by apply m_alt_r].
    + apply Hl.
    + intros H. destruct (Hr H) as [?|[? _]]; [done|discriminate].
  - split.
    + intros [H|H]%matches_alt_inv; [apply m_alt_l; by apply IH1|apply m_alt_r; by apply IH2].
    + intros [H|H]%matches_alt_inv; [apply m_alt_l; by apply IH1|apply m_alt_r; by apply IH2].
  - split.
    + intros (s1 & s2 & -> & H1 & H2)%matches_cat_inv.
      change (c :: s1 ++ s2) with ((c :: s1) ++ s2).
      constructor; [by apply IH|done].
    + intros H. apply matches_star_cons in H as (s1 & s2 & -> & H1 & H2).
      constructor; [by apply IH|done].
Qed.

Lemma test_matches r s : test r s = true ↔ matches r s.
Proof.
  revert r. induction s as [|c s IH]; intros r; simpl.
  - apply nullable_matches.
  - rewrite IH. apply deriv_matches.
Qed.

Lemma matches_star_class p s :
  matches (Star (Class p)) s ↔ Forall (fun c => p c = true) s.
Proof.
  split.
  - induction s as [|c s IH]; [by constructor|].
    intros (s1 & s2 & -> & H1 & H2)%matches_star_cons.
    apply matches_class_inv in H1 as (c' & [= <- ->] & Hp).
    constructor; [done|by apply IH].
  - induction 1 as [|c s Hp _ IH]; [constructor|].
    change (c :: s) with ([c] ++ s). constructor; [by constructor|done].
Qed.

Lemma matches_plus_class p s :
  matches (Plus (Class p)) s ↔ s ≠ [] ∧ Forall (fun c => p c = true) s.
Proof.
  split.
  - intros (s1 & s2 & -> & H1 & H2)%matches_cat_inv.
    apply matches_class_inv in H1 as (c & -> & Hp).
    split; [done|]. constructor; [done|by apply matches_star_class].
  - intros [Hne H]. destruct H as [|c s Hp H]; [done|].
    change (c :: s) with ([c] ++ s).
    constructor; [by constructor|by apply matches_star_class].
Qed.

Lemma matches_char k s : matches (Class (N.eqb k)) s ↔ s = [k].
Proof.
  split.
  - intros (c & -> & Hc)%matches_class_inv. by apply N.eqb_eq in Hc as ->.
  - intros ->. constructor. apply N.eqb_refl.
Qed.

(** The pattern of [validate] accepts the strings of shape [x@y.z]. *)
Lemma email_pattern_shape s : test email_pattern s = true ↔ email_shape s.
Proof.
  rewrite test_matches. unfold email_pattern, email_shape, plain. split.
  - intros (x & s1 & -> & Hx & H)%matches_cat_inv.
    apply matches_cat_inv in H as (a & s2 & -> & Ha & H).
    apply matches_cat_inv in H as (y & s3 & -> & Hy & H).
    apply matches_cat_inv in H as (d & z & -> & Hd & Hz).
    apply matches_char in Ha as ->. apply matches_char in Hd as ->.
    apply matches_plus_class in Hx as [? ?], Hy as [? ?], Hz as [? ?].
    by exists x, y, z.
  - intros (x & y & z & -> & ? & ? & ? & ? & ? & ?).
    repeat (constructor; try by (apply matches_plus_class || apply matches_char)).
Qed.

(** ** Trimming *)

Lemma trimStart_head s :
  trimStart s = [] ∨ ∃ c r, trimStart s = c :: r ∧ is_space c = false.
Proof.
  induction s as [|c s IH]; simpl; [by left|].
  destruct (is_space c) eqn:Hc; [done|]. right. by exists c, s.
Qed.

Lemma trimStart_nil s : trimStart s = [] ↔ Forall (fun c => is_space c = true) s.
Proof.
  induction s as [|c s IH]; simpl; [by split|].
  destruct (is_space c) eqn:Hc.
  - rewrite IH. split; [by constructor|by inversion 1].
  - split; [done|]. inversion 1; congruence.
Qed.

Lemma trim_nil s : trim s = [] ↔ Forall (fun c => is_space c = true) s.
Proof.
  unfold trim, trimEnd. split.
  - intros H. apply (f_equal reverse) in H. rewrite reverse_involutive in H.
    change (reverse []) with (@nil N) in H.
    apply trimStart_nil in H. rewrite Forall_reverse in H.
    destruct (trimStart_head s) as [E|(c & r & E & Hc)].
    + by apply trimStart_nil.
    + rewrite E in H. inversion H; congruence.
  - intros H. apply trimStart_nil in H. by rewrite H.
Qed.

(** A string with a code unit that is not white space does not trim to
    the empty string. *)
Lemma truthy_trim s c : c ∈ s → is_space c = false → truthy (trim s) = true.
Proof.
  intros Hin Hc. destruct (trim s) eqn:E; [|done].
  apply trim_nil in E. rewrite Forall_forall in E. apply E in Hin. congruence.
Qed.

(** ** The validator *)

Lemma validate_email f :
  validate f !! "email" =
    if negb (truthy (trim (Form.email f))) then Some "Email is required."
    else if negb (test email_pattern (Form.email f)) then Some "Enter a valid email."
    else None.
Proof.
  unfold validate.
  repeat match goal with |- context [if ?b then _ else _] => destruct b end;
    by simplify_map_eq.
Qed.

Lemma validate_age_eq f :
  validate f !! "age" =
    if truthy (Form.age f) &&
       (isNaN (Number (Form.age f)) || le (Number (Form.age f)) zero)
    then Some "Enter a valid age." else None.
Proof.
  unfold validate.
  repeat match goal with |- context [if ?b then _ else _] => destruct b end;
    by simplify_map_eq.
Qed.

(** [isNaN(x) || x <= 0] is the negation of [x > 0]. *)
Lemma not_positive x : isNaN x || le x zero = negb (gt x zero).
Proof.
  unfold le, gt, lt. destruct x as [|neg|neg m e]; simpl; [done|by destruct neg|].
  by destruct (_ <? _)%Z.
Qed.

(** A list splits in one way only around an element that occurs once. *)
Lemma app_cons_unique {A} (a : A) l1 l2 l1' l2' :
  a ∉ l1 → a ∉ l2 → l1 ++ (a :: l2) = l1' ++ (a :: l2') → l1 = l1' ∧ l2 = l2'.
Proof.
  revert l1'. induction l1 as [|b l1 IH]; intros l1' H1 H2 E;
    destruct l1' as [|b' l1']; simpl in E.
  - by simplify_eq.
  - simplify_eq. destruct H2. apply elem_of_app. right. by left.
  - simplify_eq. destruct H1. by left.
  - simplify_eq. apply not_elem_of_cons in H1 as [_ H1].
    by destruct (IH l1' H1 H2) as [-> ->].
Qed.

(** An [@] in a string of shape [x@y.z] is the one between [x] and [y]. *)
Lemma email_shape_split pre post s :
  email_shape s → s = pre ++ (64%N :: post) → (64%N ∉ pre) ∧ (46%N ∈ post).
Proof.
  intros (x & y & z & -> & _ & _ & _ & Hx & Hy & Hz) E.
  assert (∀ l, plain l → 64%N ∉ l) as Hno.
  { intros l Hl Hin. unfold plain in Hl. rewrite Forall_forall in Hl.
    apply Hl in Hin. vm_compute in Hin. done. }
  assert (64%N ∉ y ++ [46%N] ++ z) as Hyz.
  { rewrite !elem_of_app.
    intros [?|[Hd|?]]; [by apply (Hno y)| |by apply (Hno z)].
    by apply list_elem_of_singleton in Hd. }
  simpl in E. apply app_cons_unique in E as [<- <-]; [|by apply Hno|done].
  split; [by apply Hno|set_solver].
Qed.

(** Claim C4, as amended: the validator asks for an email when the trimmed
    email is empty, it records an email error for every non-empty string
    that has no [@] or has an [@] with no [.] after it, and it records no
    email error exactly for the strings [x@y.z] in which [x], [y] and [z]
    are non-empty and free of [@] and white space. *)
Theorem validate_email_rules (f : Form.t) :
  (trim (Form.email f) = [] →
   validate f !! "email" = Some "Email is required.") ∧
  (Form.email f ≠ [] →
   (64%N ∉ Form.email f ∨
    ∃ pre post, Form.email f = pre ++ (64%N :: post) ∧ 46%N ∉ post) →
   is_Some (validate f !! "email")) ∧
  (validate f !! "email" = None ↔ email_shape (Form.email f)).
Proof.
  rewrite validate_email. split; [|split].
  - by intros ->.
  - intros _ Hlack. destruct (negb (truthy _)); [by eexists|].
    destruct (test _ _) eqn:Ht; [|by eexists]. exfalso.
    apply email_pattern_shape in Ht.
    destruct Hlack as [Hno|(pre & post & E & Hno)].
    + destruct Ht as (x & y & z & E & _). destruct Hno. rewrite E. set_solver.
    + by destruct (email_shape_split _ _ _ Ht E).
  - rewrite <- email_pattern_shape. split.
    + destruct (negb (truthy _)); [done|]. by destruct (test _ _).
    + intros Ht. rewrite Ht. simpl.
      apply email_pattern_shape in Ht as (x & y & z & E & _).
      rewrite (truthy_trim _ 64%N); [done| |done]. rewrite E. set_solver.
Qed.

(** The amended claim applies to the empty email, to ["bad"] and to
    ["ana@x.com"]. *)
Lemma validate_email_rules_witness :
  validate (with_email "") !! "email" = Some "Email is required." ∧
  is_Some (validate (with_email "bad") !! "email") ∧
  validate (with_email "ana@x.com") !! "email" = None.
Proof.
  split; [|split].
  - by apply (validate_email_rules (with_email "")).
  - apply (validate_email_rules (with_email "bad")); [done|].
    left. unfold with_email, js. simpl.
    rewrite !not_elem_of_cons. repeat split; try done. apply not_elem_of_nil.
  - apply (validate_email_rules (with_email "ana@x.com")).
    exists (js "ana"), (js "x"), (js "com"). unfold plain.
    repeat split; try done; by repeat constructor.
Defined.

(** Claim C4 as stated fails on ["a@b."]: a string without white space, with
    one [@] and a [.] after it, for which an email error is recorded. *)
Lemma email_trailing_dot_rejected :
  let s := js "a@b." in
  Forall (fun c => is_space c = false) s ∧
  length (filter (fun c => c = 64%N) s) = 1 ∧
  (∃ pre post, s = pre ++ (64%N :: post) ∧ 46%N ∈ post) ∧
  validate (with_email "a@b.") !! "email" = Some "Enter a valid email.".
Proof.
  split; [by repeat constructor|]. split; [done|]. split.
  - exists (js "a"), (js "b."). split; [done|]. right. left.
  - by vm_compute.
Qed.

(** Claim C5: no age error for the empty age, and for a non-empty age an age
    error exactly when [Number(age) > 0] is false, that is when the age
    is not parsed to a number greater than zero. *)
Theorem validate_age (f : Form.t) :
  (Form.age f = [] → validate f !! "age" = None) ∧
  (Form.age f ≠ [] →
   (validate f !! "age" = Some "Enter a valid age." ↔
    gt (Number (Form.age f)) zero = false) ∧
   (validate f !! "age" = None ↔ gt (Number (Form.age f)) zero = true)).
Proof.
  rewrite validate_age_eq, not_positive. split.
  - by intros ->.
  - intros Hne. destruct (Form.age f) as [|c s] eqn:E; [done|]. simpl.
    destruct (gt _ _); simpl; split; split; done.
Qed.

(** Ages that get an error and ages that do not. *)
Lemma validate_age_witness :
  validate (with_age "") !! "age" = None ∧
  validate (with_age "23") !! "age" = None ∧
  validate (with_age "0") !! "age" = Some "Enter a valid age." ∧
  validate (with_age "abc") !! "age" = Some "Enter a valid age." ∧
  validate (with_age "1e-400") !! "age" = Some "Enter a valid age.".
Proof.
  split; [|split; [|split; [|split]]].
  - destruct (validate_age (with_age "")) as [H _]. by apply H.
  - destruct (validate_age (with_age "23")) as [_ H].
    destruct H as [_ H]; [by vm_compute|]. apply H. by vm_compute.
  - destruct (validate_age (with_age "0")) as [_ H].
    destruct H as [H _]; [by vm_compute|]. apply H. by vm_compute.
  - destruct (validate_age (with_age "abc")) as [_ H].
    destruct H as [H _]; [by vm_compute|]. apply H. by vm_compute.
  - destruct (validate_age (with_age "1e-400")) as [_ H].
    destruct H as [H _]; [by vm_compute|]. apply H. by vm_compute.
Defined.

(** ** Handlers and effects *)

Arguments validate : simpl never.
Arguments JSON_stringify : simpl never.
Arguments usage : simpl never.
Arguments toISOString : simpl never.
Arguments Object_keys : simpl never.

(** Unfolds the operations of a handler, to run it on a world. *)
Ltac run_handler :=
  unfold handler, handleSubmit, saveSubmission, handleDelete, handleReset,
    handleChange, handleFile, reader_onload,
    setForm, setPreview, setErrors, setSubmissions, update_react,
    set_clock, take_reader, localStorage_setItem, FileReader_readAsDataURL,
    Date_now_toISOString, log, mbind, M_bind, mret, M_ret;
  simpl.

(** Likewise for the effects of a commit. *)
Ltac run_effects :=
  unfold commit_effects, preview_effect, setPreview, update_react,
    set_effect, URL_createObjectURL, URL_revokeObjectURL, log,
    mbind, M_bind, mret, M_ret;
  simpl.

Lemma lookup_nonempty {V} (m : gmap string V) k v : m !! k = Some v → m ≠ ∅.
Proof. intros H ->. by rewrite lookup_empty in H. Qed.

Lemma Object_keys_nonempty {V} (o : gmap string V) :
  o ≠ ∅ → (0 <? length (Object_keys o))%nat = true.
Proof.
  intros H. apply Nat.ltb_lt. unfold Object_keys. rewrite length_fmap.
  destruct (map_to_list o) eqn:E; [by apply map_to_list_empty_iff in E|].
  simpl. lia.
Qed.

Lemma written_app cs1 cs2 : written (cs1 ++ cs2) = written cs1 ++ written cs2.
Proof. apply List.filter_app. Qed.

(** Committing the effects touches the preview and the object URLs only. *)
Lemma commit_effects_frame w :
  let w' := (commit_effects w).2 in
  form (react w') = form (react w) ∧
  errors (react w') = errors (react w) ∧
  submissions (react w') = submissions (react w) ∧
  localStorage w' = localStorage w ∧
  readers w' = readers w ∧
  clock w' = clock w ∧
  written (calls w') = written (calls w).
Proof.
  run_effects. case_bool_decide; [done|].
  destruct (cleanup (effect w)), (Form.profile (form (react w))); simpl;
    rewrite ?written_app; simpl; rewrite ?app_nil_r; done.
Qed.

(** With errors, [handleSubmit] publishes them and does nothing more. *)
Lemma handleSubmit_invalid c w :
  validate (form c) ≠ ∅ → handleSubmit c w = setErrors (validate (form c)) w.
Proof.
  intros H. run_handler. by rewrite (Object_keys_nonempty _ H).
Qed.

(** Claim C1: when the validator returns errors for the form, a submit event
    returns after publishing them as [errors]: the form, the submissions
    and the store are as before, no reader is started and nothing is
    written. *)
Theorem submit_invalid_halts (now : Z) (w : World) :
  validate (form (react w)) ≠ ∅ →
  let r := dispatch now Submit w in
  r.1 = Return tt ∧
  errors (react r.2) = validate (form (react w)) ∧
  form (react r.2) = form (react w) ∧
  submissions (react r.2) = submissions (react w) ∧
  localStorage r.2 = localStorage w ∧
  readers r.2 = readers w ∧
  written (calls r.2) = written (calls w).
Proof.
  intros H. unfold dispatch. simpl.
  rewrite handleSubmit_invalid by done. simpl.
  match goal with |- context [commit_effects ?w1] =>
    destruct (commit_effects_frame w1) as (-> & -> & -> & -> & -> & _ & ->)
  end.
  done.
Qed.

(** The scenario of the specification: a submit with the email ["bad"]. *)
Lemma submit_invalid_halts_witness :
  let w := showing (with_email "bad") [] ∅ 1000 in
  let r := dispatch 5 Submit w in
  r.1 = Return tt ∧
  errors (react r.2) !! "email" = Some "Enter a valid email." ∧
  form (react r.2) = with_email "bad" ∧
  submissions (react r.2) = [] ∧
  localStorage r.2 = localStorage w.
Proof.
  intros w r.
  destruct (submit_invalid_halts 5 w) as (H1 & H2 & H3 & H4 & H5 & _).
  { apply (lookup_nonempty _ "email" "Enter a valid email.").
    rewrite validate_email. vm_compute. reflexivity. }
  fold r in H1, H2, H3, H4, H5.
  rewrite H1, H2, H3, H4, H5. clear. vm_compute. repeat split.
Defined.

(** *** [saveSubmission] *)

Lemma saveSubmission_ok c submitted url w :
  let next := toSave submitted url (toISOString (clock w)) :: submissions c in
  fits (JSON_stringify next) w →
  saveSubmission c submitted url w = (Return tt, saved next w).
Proof.
  intros next H. apply Nat.leb_le in H. run_handler. fold next.
  by rewrite H.
Qed.

Lemma saveSubmission_fail c submitted url w :
  let next := toSave submitted url (toISOString (clock w)) :: submissions c in
  ¬ fits (JSON_stringify next) w →
  saveSubmission c submitted url w = (Throw QuotaExceededError, unsaved next w).
Proof.
  intros next H. apply Nat.leb_nle in H. run_handler. fold next.
  by rewrite H.
Qed.

Lemma Object_keys_empty {V} :
  (0 <? length (Object_keys (∅ : gmap string V)))%nat = false.
Proof. unfold Object_keys. by rewrite map_to_list_empty. Qed.

(** Without errors, [handleSubmit] clears [errors] and goes on to read
    the image or to save. *)
Lemma handleSubmit_valid c w :
  validate (form c) = ∅ →
  handleSubmit c w =
    match Form.profile (form c) with
    | Some file => FileReader_readAsDataURL file c
    | None => saveSubmission c (form c) None
    end (setErrors ∅ w).2.
Proof.
  intros E. unfold handleSubmit, mbind, M_bind. rewrite E. simpl.
  by rewrite Object_keys_empty.
Qed.

(** The form of the scenario is valid, whatever its bio and hobbies. *)
Lemma validate_ana f :
  Form.name f = js "Ana" → Form.email f = js "ana@x.com" → Form.age f = [] →
  Form.gender f = js "female" → Form.agree f = true →
  validate f = ∅.
Proof.
  destruct f as [n e a g b h ag pr]. simpl. intros -> -> -> -> ->.
  vm_compute. reflexivity.
Qed.

(** Claim C2: for the form of Ana with no image, a submit whose snapshot the
    store has room for creates a record with a null [profileUrl], puts it
    at index 0 of the submissions, stores the whole sequence, resets the
    form to its initial value and clears the errors. *)
Theorem submit_ana (now : Z) (w : World) :
  let f := form (react w) in
  Form.name f = js "Ana" → Form.email f = js "ana@x.com" →
  Form.age f = [] → Form.gender f = js "female" →
  Form.agree f = true → Form.profile f = None →
  let record := toSave f None (toISOString now) in
  let next := record :: submissions (react w) in
  fits (JSON_stringify next) w →
  let r := dispatch now Submit w in
  r.1 = Return tt ∧
  Submission.profileUrl record = None ∧
  submissions (react r.2) = next ∧
  submissions (react r.2) !! 0 = Some record ∧
  snapshot r.2 = Some (JSON_stringify next) ∧
  written (calls r.2) =
    written (calls w) ++ [SetItem KEY (JSON_stringify next) true] ∧
  form (react r.2) = Form.initial ∧
  errors (react r.2) = ∅.
Proof.
  intros f Hn He Ha Hg Hag Hp record next Hfits r.
  assert (r = (Return tt, (commit_effects
            (saved next (setErrors ∅ (set_clock now w).2).2)).2)) as ->.
  { unfold r, dispatch. simpl handler.
    rewrite handleSubmit_valid by by apply validate_ana.
    simpl Form.profile. fold f. rewrite Hp.
    by rewrite saveSubmission_ok. }
  unfold snapshot. simpl.
  match goal with |- context [commit_effects ?w1] =>
    destruct (commit_effects_frame w1) as (-> & -> & -> & -> & _ & _ & ->)
  end.
  simpl. rewrite written_app, lookup_insert_eq. done.
Qed.

(** The scenario, on the freshly mounted component. *)
Lemma submit_ana_witness :
  let w := showing ana [] ∅ 1000 in
  let r := dispatch 1762056000123 Submit w in
  r.1 = Return tt ∧
  (∃ record, submissions (react r.2) = [record] ∧
             Submission.profileUrl record = None ∧
             Submission.timestamp record = js "2025-11-02T04:00:00.123Z") ∧
  form (react r.2) = Form.initial ∧
  errors (react r.2) = ∅.
Proof.
  intros w r.
  destruct (submit_ana 1762056000123 w) as (H1 & H2 & H3 & _ & _ & _ & H4 & H5);
    try reflexivity.
  { unfold fits. vm_compute. lia. }
  fold r in H1, H3, H4, H5. rewrite H1, H3, H4, H5. clear.
  split; [reflexivity|]. split; [|split; reflexivity].
  eexists. split; [reflexivity|]. split; [reflexivity|].
  vm_compute. reflexivity.
Defined.

(** What an event that reaches the persist step leaves, by whether the
    store has room. *)
Lemma dispatch_persists now ev w next :
  persists w now ev next →
  let r := dispatch now ev w in
  submissions (react r.2) = next ∧
  (fits (JSON_stringify next) w →
   r.1 = Return tt ∧
   snapshot r.2 = Some (JSON_stringify next) ∧
   form (react r.2) = Form.initial ∧
   errors (react r.2) = ∅ ∧
   written (calls r.2) =
     written (calls w) ++ [SetItem KEY (JSON_stringify next) true]) ∧
  (¬ fits (JSON_stringify next) w →
   r.1 = Throw QuotaExceededError ∧
   localStorage r.2 = localStorage w ∧
   form (react r.2) = form (react w) ∧
   written (calls r.2) =
     written (calls w) ++ [SetItem KEY (JSON_stringify next) false]).
Proof.
  intros Hp r.
  assert (∃ w0, localStorage w0 = localStorage w ∧ clock w0 = now ∧
                form (react w0) = form (react w) ∧ calls w0 = calls w ∧
                ∃ c submitted url,
                  next = toSave submitted url (toISOString now) :: submissions c ∧
                  r = let '(o, w1) := saveSubmission c submitted url w0 in
                      (o, (commit_effects w1).2))
    as (w0 & Hls & Hclock & Hform & Hcalls & c & submitted & url & -> & ->).
  { destruct Hp as [Hv Hnone|i result rd Hrd]; unfold r, dispatch; simpl handler.
    - rewrite handleSubmit_valid by done. simpl Form.profile. rewrite Hnone.
      exists (setErrors ∅ (set_clock now w).2).2.
      repeat split. by do 3 eexists.
    - unfold mbind, M_bind. simpl. rewrite Hrd. unfold reader_onload.
      exists (take_reader i (set_clock now w).2).2.
      repeat split. by do 3 eexists. }
  assert (fits (JSON_stringify (toSave submitted url (toISOString now)
                                  :: submissions c)) w0 ↔
          fits (JSON_stringify (toSave submitted url (toISOString now)
                                  :: submissions c)) w) as Hfits.
  { unfold fits. by rewrite Hls. }
  rewrite <- Hfits, <- Hls, <- Hform, <- Hcalls, <- Hclock. clear Hfits.
  destruct (decide (fits (JSON_stringify
              (toSave submitted url (toISOString (clock w0)) :: submissions c)) w0))
    as [Hf|Hf].
  - rewrite saveSubmission_ok by done.
    match goal with |- context [commit_effects ?w1] =>
      destruct (commit_effects_frame w1) as (E1 & E2 & E3 & E4 & _ & _ & E5)
    end.
    unfold snapshot. simpl. rewrite E1, E2, E3, E4, E5. simpl.
    rewrite lookup_insert_eq, written_app. done.
  - rewrite saveSubmission_fail by done.
    match goal with |- context [commit_effects ?w1] =>
      destruct (commit_effects_frame w1) as (E1 & E2 & E3 & E4 & _ & _ & E5)
    end.
    simpl. rewrite E1, E3, E4, E5. simpl. rewrite written_app. done.
Qed.

(** Claim C8: when the write of the persist step of a submit fails, the
    handler ends by throwing [QuotaExceededError], which nothing catches;
    the form is the one before the event, not the initial one; the store
    is as before; and [setItem] was called once, with the whole sequence,
    and not again. *)
Theorem persist_failure_keeps_form (now : Z) (ev : Event) (w : World)
    (next : list Submission.t) :
  persists w now ev next →
  ¬ fits (JSON_stringify next) w →
  let r := dispatch now ev w in
  r.1 = Throw QuotaExceededError ∧
  form (react r.2) = form (react w) ∧
  localStorage r.2 = localStorage w ∧
  written (calls r.2) =
    written (calls w) ++ [SetItem KEY (JSON_stringify next) false].
Proof.
  intros Hp Hf r. destruct (dispatch_persists now ev w next Hp) as (_ & _ & H).
  destruct (H Hf) as (? & ? & ? & ?). done.
Qed.

(** Ana submits to a store with room for ten code units. *)
Lemma persist_failure_keeps_form_witness :
  let w := showing ana [] ∅ 10 in
  let r := dispatch 0 Submit w in
  r.1 = Throw QuotaExceededError ∧
  form (react r.2) = ana ∧
  snapshot r.2 = None.
Proof.
  intros w r.
  destruct (persist_failure_keeps_form 0 Submit w _
              (persists_submit w 0 (validate_ana ana eq_refl eq_refl eq_refl
                                      eq_refl eq_refl) eq_refl))
    as (H1 & H2 & H3 & _).
  { unfold fits. vm_compute. lia. }
  fold r in H1, H2, H3. unfold snapshot. rewrite H1, H2, H3. clear.
  repeat split.
Defined.

(** ** The field editor *)

(** What a handler can make of the hobbies: it leaves them, it empties
    them with the form, or it toggles one. *)
Lemma handler_hobbies c ev w :
  let hs' := Form.hobbies (form (react (handler c ev w).2)) in
  hs' = Form.hobbies (form (react w)) ∨ hs' = [] ∨
  ∃ e, ev = Change e ∧ Target.type e = "checkbox" ∧ Target.name e = "hobbies" ∧
       hs' = if Target.checked e
             then Form.hobbies (form c) ++ [Target.value e]
             else filter (fun h => h ≠ Target.value e) (Form.hobbies (form c)).
Proof.
  destruct ev as [e|files| | |ts|i result]; run_handler.
  - repeat case_bool_decide; simpl.
    + right. right. by exists e.
    + left. unfold assign_boolean. by case_bool_decide.
    + left. unfold assign_string. by repeat case_bool_decide.
    + left. unfold assign_string. by repeat case_bool_decide.
  - by left.
  - destruct (0 <? _)%nat; [by left|].
    destruct (Form.profile (form c)); [by left|].
    simpl. destruct (_ <=? _)%nat; simpl; auto.
  - auto.
  - destruct (_ <=? _)%nat; simpl; auto.
  - destruct (readers w !! i); [|by left].
    run_handler. destruct (_ <=? _)%nat; simpl; auto.
Qed.

Lemma dispatch_hobbies now ev w :
  let hs' := Form.hobbies (form (react (dispatch now ev w).2)) in
  hs' = Form.hobbies (form (react w)) ∨ hs' = [] ∨
  ∃ e, ev = Change e ∧ Target.type e = "checkbox" ∧ Target.name e = "hobbies" ∧
       hs' = if Target.checked e
             then Form.hobbies (form (react w)) ++ [Target.value e]
             else filter (fun h => h ≠ Target.value e) (Form.hobbies (form (react w))).
Proof.
  unfold dispatch.
  pose proof (handler_hobbies (react (set_clock now w).2) ev (set_clock now w).2) as H.
  destruct (handler _ ev _) as [o w1]. simpl in *.
  destruct (commit_effects_frame w1) as (-> & _). done.
Qed.

Lemma dispatch_hobby_event now h checked w :
  Form.hobbies (form (react (dispatch now (Change (hobby_event h checked)) w).2)) =
    if checked then Form.hobbies (form (react w)) ++ [h]
    else filter (fun x => x ≠ h) (Form.hobbies (form (react w))).
Proof.
  unfold dispatch. simpl handler.
  match goal with |- context [handleChange ?c ?e ?w0] =>
    destruct (handleChange c e w0) as [o w1] eqn:E
  end.
  simpl. destruct (commit_effects_frame w1) as (-> & _).
  revert E. run_handler. by intros [= <- <-].
Qed.

(** Toggling a hobby keeps the hobbies free of duplicates, unless a
    hobby that is there is checked again. *)
Lemma toggle_NoDup (hs : list jsstring) h checked :
  (checked = true → h ∉ hs) → NoDup hs →
  NoDup (if checked then hs ++ [h] else filter (fun x => x ≠ h) hs).
Proof.
  intros Hc Hnd. destruct checked.
  - apply NoDup_app. split; [done|]. split; [|apply NoDup_singleton].
    intros x Hx ->%list_elem_of_singleton. by apply Hc.
  - by apply NoDup_filter.
Qed.

Lemma filter_all {A} (P : A → Prop) `{∀ x, Decision (P x)} (l : list A) :
  Forall P l → filter P l = l.
Proof.
  induction 1 as [|x l Hx _ IH]; [done|].
  by rewrite filter_cons_True, IH.
Qed.

(** A rendered hobbies checkbox emits the inverse of what it shows. *)
Lemma rendered_toggled c e :
  rendered c (Change e) →
  Target.type e = "checkbox" → Target.name e = "hobbies" →
  Target.checked e = negb (bool_decide (Target.value e ∈ Form.hobbies (form c))).
Proof. by inversion 1. Qed.

Lemma rendered_run_NoDup evs w :
  NoDup (Form.hobbies (form (react w))) → rendered_run w evs →
  NoDup (Form.hobbies (form (react (run evs w)))).
Proof.
  revert w. induction evs as [|[now ev] evs IH]; intros w Hnd Hr; [done|].
  destruct Hr as [Hwt Hr]. simpl. apply IH; [|done].
  destruct (dispatch_hobbies now ev w) as [->|[->|(e & -> & Ht & Hn & ->)]];
    [done|constructor|].
  apply toggle_NoDup; [|done].
  intros Hc. pose proof (rendered_toggled _ _ Hwt Ht Hn) as Hneg.
  rewrite Hc in Hneg. symmetry in Hneg.
  by apply negb_true_iff, bool_decide_eq_false in Hneg.
Qed.

(** Claim C3, as amended: a check event on the hobbies collection appends the
    value to [hobbies]; when the value is absent this adds it once and
    keeps [hobbies] free of duplicates.  An uncheck event removes the
    value, and leaves [hobbies] as they are when it is absent.  The
    rendered checkbox of a hobby emits a check event only when the hobby
    is absent, so that no duplicates arise in any run of events of the
    rendered form. *)
Theorem hobby_toggle (now : Z) (h : jsstring) (w : World) :
  let hs := Form.hobbies (form (react w)) in
  let after checked :=
    Form.hobbies
      (form (react (dispatch now (Change (hobby_event h checked)) w).2)) in
  after true = hs ++ [h] ∧
  (h ∉ hs → NoDup hs → NoDup (after true)) ∧
  after false = filter (fun x => x ≠ h) hs ∧
  (h ∉ after false) ∧
  (h ∉ hs → after false = hs) ∧
  (NoDup hs → NoDup (after false)) ∧
  (Target.checked (hobby_click (react w) h) = true ↔ h ∉ hs) ∧
  (∀ evs, NoDup hs → rendered_run w evs →
          NoDup (Form.hobbies (form (react (run evs w))))).
Proof.
  intros hs after. unfold after. rewrite !dispatch_hobby_event. fold hs.
  split; [done|]. split.
  { intros. by apply (toggle_NoDup hs h true). }
  split; [done|]. split.
  { rewrite list_elem_of_filter. by intros [? _]. }
  split.
  { intros Hh. apply filter_all, Forall_forall. by intros x Hx ->. }
  split.
  { intros. by apply (toggle_NoDup hs h false). }
  split.
  { simpl. rewrite negb_true_iff, bool_decide_eq_false. done. }
  intros evs. apply rendered_run_NoDup.
Qed.

(** Checking "music" when "coding" is checked, unchecking "coding", and a
    run of four clicks on the rendered checkboxes. *)
Lemma hobby_toggle_witness :
  let w := showing coder [] ∅ 1000 in
  let after h checked :=
    Form.hobbies
      (form (react (dispatch 0 (Change (hobby_event (js h) checked)) w).2)) in
  let clicks :=
    [(1%Z, Change (hobby_event (js "music") true));
     (2%Z, Change (hobby_event (js "coding") false));
     (3%Z, Change (hobby_event (js "coding") true));
     (4%Z, Change (hobby_event (js "music") false))] in
  after "music" true = [js "coding"; js "music"] ∧
  NoDup (after "music" true) ∧
  after "coding" false = [] ∧
  rendered_run w clicks ∧
  NoDup (Form.hobbies (form (react (run clicks w)))).
Proof.
  intros w after clicks.
  destruct (hobby_toggle 0 (js "music") w) as (H1 & H2 & _ & _ & _ & _ & _ & H4).
  destruct (hobby_toggle 0 (js "coding") w) as (_ & _ & H3 & _).
  assert (NoDup (Form.hobbies (form (react w)))) as Hnd by apply NoDup_singleton.
  assert (∀ h, js h ∈ hobby_catalog → ∀ w' checked,
            Target.checked (hobby_click (react w') (js h)) = checked →
            rendered (react w') (Change (hobby_event (js h) checked))) as Hclick.
  { intros h Hh w' checked <-. by apply (rendered_hobby (react w') (js h)). }
  assert (rendered_run w clicks) as Hrun.
  { repeat split.
    - apply Hclick; [right; right; left|vm_compute; reflexivity].
    - apply Hclick; [left|vm_compute; reflexivity].
    - apply Hclick; [left|vm_compute; reflexivity].
    - apply Hclick; [right; right; left|vm_compute; reflexivity]. }
  split; [exact H1|]. split; [|split; [exact H3|split; [exact Hrun|]]].
  - apply H2; [|exact Hnd]. simpl. by intros ?%list_elem_of_singleton.
  - by apply H4.
Defined.

(** Claim C3 as stated fails when a checked hobby is checked again: the
    hobbies change, and hold the hobby twice. *)
Lemma check_checked_hobby_duplicates :
  let w := showing coder [] ∅ 1000 in
  let hs' :=
    Form.hobbies
      (form (react (dispatch 0 (Change (hobby_event (js "coding") true)) w).2)) in
  js "coding" ∈ Form.hobbies (form (react w)) ∧
  hs' = [js "coding"; js "coding"] ∧
  hs' ≠ Form.hobbies (form (react w)) ∧
  ¬ NoDup hs'.
Proof.
  intros w hs'. unfold hs'. rewrite dispatch_hobby_event. simpl.
  split; [by left|]. split; [done|]. split; [done|].
  intros Hnd. apply NoDup_cons in Hnd as [Hnd _]. apply Hnd. by left.
Qed.

(** ** The store *)

Lemma usage_insert (m : gmap string jsstring) k v :
  usage (<[k := v]> m) = String.length k + length v + usage (delete k m).
Proof.
  unfold usage. rewrite <- insert_delete_eq.
  rewrite map_fold_insert_L; [done| |apply lookup_delete_eq].
  intros. lia.
Qed.

(** Writing a value no longer than the one in store keeps within the
    quota. *)
Lemma fits_shorter v v' w :
  within_quota w → items (localStorage w) !! KEY = Some v →
  length v' ≤ length v → fits v' w.
Proof.
  unfold within_quota, fits. intros Hq Hv Hle.
  rewrite <- (insert_id _ _ _ Hv) in Hq.
  rewrite usage_insert in *. lia.
Qed.

Lemma length_commas_cons x l :
  length (commas (x :: l)) =
    length x + match l with [] => 0 | _ => 1 + length (commas l) end.
Proof.
  destruct l as [|y l]; simpl; [lia|].
  rewrite !length_app. simpl. lia.
Qed.

Lemma length_commas_sublist l1 l2 :
  l1 `sublist_of` l2 → length (commas l1) ≤ length (commas l2).
Proof.
  induction 1 as [|x l1 l2 Hs IH|x l1 l2 Hs IH].
  - done.
  - rewrite !length_commas_cons. destruct l1 as [|y l1], l2 as [|z l2]; try lia.
    by apply sublist_nil_r in Hs.
  - rewrite length_commas_cons. destruct l2 as [|z l2]; [|lia].
    apply sublist_nil_r in Hs as ->. simpl. lia.
Qed.

Lemma length_JSON_stringify_filter (P : Submission.t → Prop)
    `{∀ x, Decision (P x)} l :
  length (JSON_stringify (filter P l)) ≤ length (JSON_stringify l).
Proof.
  unfold JSON_stringify, json_array. rewrite !length_app.
  assert (length (commas (map Submission.stringify (filter P l))) ≤
          length (commas (map Submission.stringify l))) as Hs; [|lia].
  apply length_commas_sublist, fmap_sublist, sublist_filter.
Qed.

(** *** [handleDelete] *)

Lemma dispatch_delete now ts w :
  in_sync w → within_quota w →
  let next :=
    filter (fun s => Submission.timestamp s ≠ ts) (submissions (react w)) in
  let r := dispatch now (Delete ts) w in
  r.1 = Return tt ∧
  submissions (react r.2) = next ∧
  localStorage r.2 =
    {| items := <[KEY := JSON_stringify next]> (items (localStorage w));
       quota := quota (localStorage w) |} ∧
  form (react r.2) = form (react w) ∧
  written (calls r.2) =
    written (calls w) ++ [SetItem KEY (JSON_stringify next) true].
Proof.
  intros Hsync Hq next r.
  assert (fits (JSON_stringify next) w) as Hfits.
  { eapply fits_shorter; [done|exact Hsync|].
    apply length_JSON_stringify_filter. }
  apply Nat.leb_le in Hfits.
  unfold r, dispatch. run_handler. fold next. rewrite Hfits.
  match goal with |- context [commit_effects ?w1] =>
    destruct (commit_effects_frame w1) as (E1 & _ & E3 & E4 & _ & _ & E5)
  end.
  simpl. rewrite E1, E3, E4, E5. simpl. by rewrite written_app.
Qed.

(** In memory, [handleDelete] filters the submissions, whatever becomes
    of the write. *)
Lemma dispatch_delete_submissions now ts w :
  submissions (react (dispatch now (Delete ts) w).2) =
    filter (fun s => Submission.timestamp s ≠ ts) (submissions (react w)).
Proof.
  unfold dispatch. run_handler.
  destruct (_ <=? _)%nat; simpl;
    match goal with |- context [commit_effects ?w1] =>
      by destruct (commit_effects_frame w1) as (_ & _ & -> & _)
    end.
Qed.

(** Claim C6, as amended: [delete(t)] takes the one record with the
    timestamp [t] out of the submissions, when one record has it, and
    leaves the submissions as they are when none has.  With the snapshot
    in store that of the submissions, within the quota, it returns
    without error after one write of the whole remaining sequence, which
    is then the snapshot in store; and when no record has the timestamp
    [t] the store is as before. *)
Theorem delete_by_timestamp (now : Z) (t : jsstring) (w : World) :
  let r := dispatch now (Delete t) w in
  (∀ l1 record l2,
     submissions (react w) = l1 ++ record :: l2 →
     Submission.timestamp record = t →
     (∀ s, s ∈ l1 ++ l2 → Submission.timestamp s ≠ t) →
     submissions (react r.2) = l1 ++ l2) ∧
  ((∀ s, s ∈ submissions (react w) → Submission.timestamp s ≠ t) →
   submissions (react r.2) = submissions (react w)) ∧
  (in_sync w → within_quota w →
   r.1 = Return tt ∧
   in_sync r.2 ∧
   written (calls r.2) =
     written (calls w) ++
       [SetItem KEY (JSON_stringify (submissions (react r.2))) true] ∧
   ((∀ s, s ∈ submissions (react w) → Submission.timestamp s ≠ t) →
    localStorage r.2 = localStorage w)).
Proof.
  intros r. unfold r at 1 2. rewrite dispatch_delete_submissions.
  split; [|split].
  - intros l1 record l2 -> Ht Hrest.
    rewrite filter_app, filter_cons_False by (by intros ?).
    rewrite <- filter_app. apply filter_all, Forall_forall. done.
  - intros Hnone. by apply filter_all, Forall_forall.
  - intros Hsync Hq.
    destruct (dispatch_delete now t w Hsync Hq) as (H1 & H2 & H3 & _ & H5).
    fold r in H1, H2, H3, H5. rewrite H5, H2.
    split; [done|]. split.
    { unfold in_sync, snapshot. rewrite H2, H3. simpl. apply lookup_insert_eq. }
    split; [done|].
    intros Hnone. rewrite H3.
    rewrite (filter_all _ (submissions (react w))) by by apply Forall_forall.
    rewrite insert_id by exact Hsync. by destruct (localStorage w).
Qed.

(** Claim C10, as amended: after [delete(t)] no record of the
    submissions has the timestamp [t], however many had it, and the
    records with another timestamp are all there, in their order; with
    the snapshot in store that of the submissions, within the quota, the
    snapshot in store is then that of the submissions that remain. *)
Theorem delete_removes_every (now : Z) (t : jsstring) (w : World) :
  let r := dispatch now (Delete t) w in
  (∀ s, s ∈ submissions (react r.2) → Submission.timestamp s ≠ t) ∧
  (∀ s, s ∈ submissions (react w) → Submission.timestamp s ≠ t →
        s ∈ submissions (react r.2)) ∧
  submissions (react r.2) `sublist_of` submissions (react w) ∧
  (in_sync w → within_quota w →
   snapshot r.2 = Some (JSON_stringify (submissions (react r.2)))).
Proof.
  intros r. unfold r at 1 2 3. rewrite dispatch_delete_submissions.
  split; [|split; [|split]].
  - by intros s [? _]%list_elem_of_filter.
  - intros s ? ?. by apply list_elem_of_filter.
  - apply sublist_filter.
  - intros Hsync Hq.
    destruct (dispatch_delete now t w Hsync Hq) as (_ & H2 & H3 & _).
    fold r in H2, H3. unfold snapshot. rewrite H2, H3. simpl.
    apply lookup_insert_eq.
Qed.

Lemma listing_in_sync l : in_sync (listing l).
Proof. apply lookup_singleton_eq. Qed.

(** Deleting the second of three records, and a timestamp that no record
    has. *)
Lemma delete_by_timestamp_witness :
  let a := record_of "a" "t1" in
  let b := record_of "b" "t2" in
  let c := record_of "c" "t3" in
  let w := listing [a; b; c] in
  (dispatch 0 (Delete (js "t2")) w).1 = Return tt ∧
  submissions (react (dispatch 0 (Delete (js "t2")) w).2) = [a; c] ∧
  submissions (react (dispatch 0 (Delete (js "t4")) w).2) = [a; b; c] ∧
  localStorage (dispatch 0 (Delete (js "t4")) w).2 = localStorage w.
Proof.
  intros a b c w.
  assert (within_quota w) as Hq by (vm_compute; lia).
  assert (∀ s, s ∈ [a; b; c] → Submission.timestamp s ≠ js "t4") as Hnone.
  { clear. intros s Hs.
    repeat (apply elem_of_cons in Hs as [->|Hs]; [vm_compute; discriminate|]).
    destruct (not_elem_of_nil _ Hs). }
  destruct (delete_by_timestamp 0 (js "t2") w) as (H2 & _ & H1).
  destruct (H1 (listing_in_sync _) Hq) as (H1' & _).
  destruct (delete_by_timestamp 0 (js "t4") w) as (_ & H3 & H4).
  destruct (H4 (listing_in_sync _) Hq) as (_ & _ & _ & H4').
  split; [exact H1'|]. split; [|split; [exact (H3 Hnone)|exact (H4' Hnone)]].
  apply (H2 [a] b [c]); [reflexivity|reflexivity|].
  clear. intros s Hs.
  repeat (apply elem_of_cons in Hs as [->|Hs]; [vm_compute; discriminate|]).
  destruct (not_elem_of_nil _ Hs).
Defined.

(** Deleting a timestamp that two of three records share. *)
Lemma delete_removes_every_witness :
  let a := record_of "a" "t1" in
  let b := record_of "b" "t2" in
  let c := record_of "c" "t1" in
  let r := dispatch 0 (Delete (js "t1")) (listing [a; b; c]) in
  (∀ s, s ∈ submissions (react r.2) → Submission.timestamp s ≠ js "t1") ∧
  b ∈ submissions (react r.2) ∧
  snapshot r.2 = Some (JSON_stringify (submissions (react r.2))).
Proof.
  intros a b c r.
  assert (within_quota (listing [a; b; c])) as Hq by (vm_compute; lia).
  destruct (delete_removes_every 0 (js "t1") (listing [a; b; c]))
    as (H1 & H2 & _ & H3).
  split; [exact H1|]. split; [|exact (H3 (listing_in_sync _) Hq)].
  apply H2; [|vm_compute; discriminate]. right. left.
Defined.

(** Claim C6 as stated fails once the store has refused a write.  On a
    store that holds one record and is full, Ana fills the form in and
    submits it: the write is refused, and the record of Ana is in memory
    only.  The delete of the record in store, which is listed, then takes
    it out of the memory, but its write is refused too: it throws, and
    the record is still in the snapshot in store.  So does the delete of
    a timestamp that no record has. *)
Lemma delete_refused_keeps_record :
  let old := record_of "a" "t1" in
  let new := toSave ana None (js "1970-01-01T00:00:00.002Z") in
  let w0 := (mount (parse_only [old]) (full_store [old]) 0).2 in
  let w := run (fill_ana 1 ++ [(2%Z, Submit)]) w0 in
  let r := dispatch 3 (Delete (js "t1")) w in
  rendered_run w0 (fill_ana 1 ++ [(2%Z, Submit); (3%Z, Delete (js "t1"))]) ∧
  submissions (react w) = [new; old] ∧
  r.1 = Throw QuotaExceededError ∧
  submissions (react r.2) = [new] ∧
  snapshot r.2 = Some (JSON_stringify [old]) ∧
  (dispatch 3 (Delete (js "t9")) w).1 = Throw QuotaExceededError.
Proof.
  intros old new w0 w r.
  assert (submissions (react w) = [new; old]) as Hs by (vm_compute; reflexivity).
  split.
  { repeat split.
    - apply rendered_text. left.
    - apply rendered_text. right. left.
    - apply rendered_gender. right. left.
    - apply (rendered_agree (react (run (take 3 (fill_ana 1)) w0))).
    - apply rendered_submit.
    - apply (rendered_delete (react w) old). rewrite Hs. right. left. }
  split; [exact Hs|]. clear Hs.
  split; [vm_compute; reflexivity|]. split; [vm_compute; reflexivity|].
  split; vm_compute; reflexivity.
Qed.

(** Claim C10 as stated fails in the same way: two records in store have
    the timestamp deleted, and both are in the snapshot in store after
    the delete, whose write the store refused. *)
Lemma delete_refused_keeps_every :
  let a := record_of "a" "t1" in
  let c := record_of "c" "t1" in
  let bio := replicate 300 120%N in
  let w0 := (mount (parse_only [a; c]) (full_store [a; c]) 0).2 in
  let w := run (fill_ana 1 ++ [type_bio 1 bio; (2%Z, Submit)]) w0 in
  let r := dispatch 3 (Delete (js "t1")) w in
  rendered_run w0
    (fill_ana 1 ++ [type_bio 1 bio; (2%Z, Submit); (3%Z, Delete (js "t1"))]) ∧
  (∃ new, submissions (react w) = [new; a; c] ∧ submissions (react r.2) = [new]) ∧
  r.1 = Throw QuotaExceededError ∧
  snapshot r.2 = Some (JSON_stringify [a; c]) ∧
  Submission.timestamp a = js "t1" ∧ Submission.timestamp c = js "t1".
Proof.
  intros a c bio w0 w r.
  assert (∃ new, submissions (react w) = [new; a; c] ∧
                 submissions (react r.2) = [new]) as (new & Hs & Hr).
  { eexists. split; vm_compute; reflexivity. }
  split.
  { repeat split.
    - apply rendered_text. left.
    - apply rendered_text. right. left.
    - apply rendered_gender. right. left.
    - apply (rendered_agree (react (run (take 3 (fill_ana 1)) w0))).
    - apply rendered_bio.
    - apply rendered_submit.
    - apply (rendered_delete (react w) a). rewrite Hs. right. left. }
  split; [exists new; split; [exact Hs|exact Hr]|]. clear.
  split; [vm_compute; reflexivity|]. split; [vm_compute; reflexivity|].
  split; reflexivity.
Qed.

(** ** The preview effect *)

Lemma live_after_snoc cs c : live_after (cs ++ [c]) = after_call (live_after cs) c.
Proof. apply foldl_snoc. Qed.

Lemma live_after_app_other cs cs' :
  Forall (fun c => is_url_call c = false) cs' →
  live_after (cs ++ cs') = live_after cs.
Proof.
  induction cs' as [|c cs' IH] using rev_ind; intros H.
  - by rewrite app_nil_r.
  - apply Forall_app in H as [H Hc]. rewrite Forall_singleton in Hc.
    rewrite app_assoc, live_after_snoc, IH by done. destruct c; by simplify_eq/=.
Qed.

Lemma disciplined_app_other cs cs' :
  disciplined cs → Forall (fun c => is_url_call c = false) cs' →
  disciplined (cs ++ cs').
Proof.
  intros Hd. induction cs' as [|c cs' IH] using rev_ind; intros H.
  - by rewrite app_nil_r.
  - apply Forall_app in H as [H Hc]. rewrite Forall_singleton in Hc.
    rewrite app_assoc. apply disciplined_other; [by apply IH|].
    intros f u ->. by simplify_eq/=.
Qed.

Lemma disciplined_size cs : disciplined cs → size (live_after cs) ≤ 1.
Proof.
  induction 1 as [|cs f u _ _ He|cs c _ IH Hc].
  - change (live_after []) with (∅ : gset ObjectURL). rewrite size_empty. lia.
  - rewrite live_after_snoc, He. cbn [after_call].
    by rewrite union_empty_r_L, size_singleton.
  - rewrite live_after_snoc. destruct c; cbn [after_call]; try done.
    + by destruct (Hc f u).
    + etrans; [|exact IH]. by apply subseteq_size, subseteq_difference_l.
Qed.

Lemma prefix_snoc_inv {A} (p l : list A) x :
  p `prefix_of` l ++ [x] → p `prefix_of` l ∨ p = l ++ [x].
Proof.
  intros [k E]. destruct k as [|y k] using rev_ind.
  - right. by rewrite app_nil_r in E.
  - left. rewrite app_assoc in E. apply app_inj_tail in E as [-> _].
    by exists k.
Qed.

Lemma disciplined_prefix cs p :
  disciplined cs → p `prefix_of` cs → disciplined p.
Proof.
  intros Hd. revert p.
  induction Hd as [|cs f u Hd IH He|cs c Hd IH Hc]; intros p Hp.
  - apply prefix_nil_inv in Hp as ->. constructor.
  - apply prefix_snoc_inv in Hp as [Hp| ->]; [by apply IH|by constructor].
  - apply prefix_snoc_inv in Hp as [Hp| ->]; [by apply IH|by constructor].
Qed.

Lemma disciplined_create_inv cs f u :
  disciplined (cs ++ [CreateObjectURL f u]) → live_after cs = ∅.
Proof.
  inversion 1 as [E|cs' f' u' Hd He E|cs' c Hd Hc E].
  - by destruct cs.
  - by apply app_inj_tail in E as [-> _].
  - apply app_inj_tail in E as [_ ->]. by destruct (Hc f u).
Qed.

(** A handler calls neither [createObjectURL] nor [revokeObjectURL], and
    leaves the effect as it is. *)
Lemma handler_frame c ev w :
  let w' := (handler c ev w).2 in
  effect w' = effect w ∧ live_urls w' = live_urls w ∧
  ∃ cs, calls w' = calls w ++ cs ∧ Forall (fun c => is_url_call c = false) cs.
Proof.
  assert (∀ cs : list call, ∃ cs', cs = cs ++ cs' ∧
            Forall (fun c => is_url_call c = false) cs') as Hnil.
  { intros cs. exists []. by rewrite app_nil_r. }
  assert (∀ (cs : list call) c, is_url_call c = false →
            ∃ cs', cs ++ [c] = cs ++ cs' ∧
                   Forall (fun c => is_url_call c = false) cs') as Hone.
  { intros cs c0 Hc. exists [c0]. split; [done|]. by apply Forall_singleton. }
  destruct ev as [e|files| | |ts|i result]; run_handler.
  - repeat case_bool_decide; simpl; auto.
  - auto.
  - destruct (0 <? _)%nat; simpl; [auto|].
    destruct (Form.profile (form c)); simpl; [auto|].
    destruct (_ <=? _)%nat; simpl; auto.
  - auto.
  - destruct (_ <=? _)%nat; simpl; auto.
  - destruct (readers w !! i); [|simpl; auto].
    run_handler. destruct (_ <=? _)%nat; simpl; auto.
Qed.

Lemma owned_handler c ev w : owned w → owned (handler c ev w).2.
Proof.
  intros (Hd & Hl & Hc & Hn).
  destruct (handler_frame c ev w) as (He & Hlive & cs & Hcs & Hf).
  unfold owned. rewrite He, Hlive, Hcs, live_after_app_other by done.
  split; [by apply disciplined_app_other|done].
Qed.

(** Committing the effects keeps the object URLs owned, and settles. *)
Lemma owned_commit w :
  owned w → owned (commit_effects w).2 ∧ settled (commit_effects w).2.
Proof.
  intros (Hd & Hl & Hc & Hn). unfold settled. run_effects.
  case_bool_decide as Hdeps; [done|].
  destruct (cleanup (effect w)) as [u|] eqn:Hcl;
    destruct (Form.profile (form (react w))) as [f|] eqn:Hp;
    simpl; unfold owned; simpl; rewrite ?Hp; simpl in Hc.
  - assert (live_after (calls w ++ [RevokeObjectURL u]) = ∅) as He.
    { rewrite live_after_snoc, <- Hl, Hc. cbn [after_call].
      apply difference_diag_L. }
    split; [|done]. split.
    { apply disciplined_create; [|done].
      apply disciplined_other; [done|by intros]. }
    rewrite live_after_snoc, He. cbn [after_call].
    rewrite Hc, difference_diag_L, union_empty_r_L. done.
  - split; [|done]. split.
    { apply disciplined_other; [done|by intros]. }
    rewrite live_after_snoc, <- Hl, Hc. cbn [after_call].
    rewrite difference_diag_L. done.
  - split; [|done]. split.
    { apply disciplined_create; [done|by rewrite <- Hl]. }
    rewrite live_after_snoc, <- Hl, Hc. cbn [after_call].
    rewrite union_empty_r_L. done.
  - destruct Hdeps. by apply Hn.
Qed.

Lemma owned_dispatch now ev w :
  owned w → owned (dispatch now ev w).2 ∧ settled (dispatch now ev w).2.
Proof.
  intros Ho. unfold dispatch.
  pose proof (owned_handler (react (set_clock now w).2) ev (set_clock now w).2 Ho) as H.
  destruct (handler _ ev _) as [o w1]. by apply owned_commit.
Qed.

Lemma owned_mount JSON_parse storage now :
  owned (mount JSON_parse storage now).2 ∧
  settled (mount JSON_parse storage now).2.
Proof.
  unfold mount, load_effect, mbind, M_bind. simpl.
  destruct (items storage !! KEY) as [saved|]; simpl.
  - destruct (truthy saved); simpl; [destruct (JSON_parse saved)|]; simpl;
      unfold owned, settled; simpl; repeat split; try done; constructor.
  - unfold owned, settled; simpl; repeat split; try done; constructor.
Qed.

Lemma owned_run evs w :
  owned w → settled w → owned (run evs w) ∧ settled (run evs w).
Proof.
  revert w. induction evs as [|[now ev] evs IH]; intros w Ho Hs; [done|].
  simpl. destruct (owned_dispatch now ev w Ho). by apply IH.
Qed.

Lemma url_calls_app cs1 cs2 :
  url_calls (cs1 ++ cs2) = url_calls cs1 ++ url_calls cs2.
Proof. apply List.filter_app. Qed.

Lemma url_calls_other cs :
  Forall (fun c => is_url_call c = false) cs → url_calls cs = [].
Proof.
  induction 1 as [|c cs Hc _ IH]; [done|]. unfold url_calls in *. simpl.
  by rewrite Hc.
Qed.

(** What a commit calls: nothing when the profile is the one of the last
    run of the effect; otherwise the cleanup function in place, then
    [createObjectURL] for a profile that is not null. *)
Lemma commit_url_calls w :
  let w' := (commit_effects w).2 in
  let p := Form.profile (form (react w)) in
  Form.profile (form (react w')) = p ∧
  if bool_decide (deps (effect w) = p)
  then calls w' = calls w ∧ cleanup (effect w') = cleanup (effect w)
  else
    calls w' =
      calls w ++
      match cleanup (effect w) with Some u => [RevokeObjectURL u] | None => [] end ++
      match p, cleanup (effect w') with
      | Some f, Some u' => [CreateObjectURL f u']
      | _, _ => []
      end ∧
    (cleanup (effect w') = None ↔ p = None).
Proof.
  run_effects. case_bool_decide; [done|].
  destruct (cleanup (effect w)) as [u|];
    destruct (Form.profile (form (react w))) as [f|] eqn:Hp; simpl;
    rewrite ?Hp, ?app_nil_r, <- ?app_assoc; repeat split; try done; congruence.
Qed.

(** What an event calls to create and to revoke object URLs. *)
Lemma dispatch_url_calls now ev w :
  settled w →
  let w' := (dispatch now ev w).2 in
  let p := Form.profile (form (react w)) in
  let p' := Form.profile (form (react w')) in
  if bool_decide (p' = p)
  then url_calls (calls w') = url_calls (calls w) ∧
       cleanup (effect w') = cleanup (effect w)
  else
    url_calls (calls w') =
      url_calls (calls w) ++
      match cleanup (effect w) with Some u => [RevokeObjectURL u] | None => [] end ++
      match p', cleanup (effect w') with
      | Some f, Some u' => [CreateObjectURL f u']
      | _, _ => []
      end ∧
    (cleanup (effect w') = None ↔ p' = None).
Proof.
  unfold settled. intros Hs. unfold dispatch.
  set (w0 := (set_clock now w).2).
  destruct (handler_frame (react w0) ev w0) as (He & _ & cs & Hcs & Hother).
  destruct (handler (react w0) ev w0) as [o w1]. simpl in He, Hcs. simpl.
  destruct (commit_url_calls w1) as [Hp Hc]. simpl in Hp, Hc.
  rewrite Hp. rewrite He, Hs in Hc.
  assert (url_calls (calls w1) = url_calls (calls w)) as Hu.
  { by rewrite Hcs, url_calls_app, (url_calls_other cs), app_nil_r. }
  case_bool_decide as H1; case_bool_decide as H2; try congruence.
  - by destruct Hc as [-> ->].
  - destruct Hc as [-> Hn]. rewrite url_calls_app, Hu. split; [|done].
    f_equal.
    by destruct (cleanup (effect w)), (Form.profile (form (react w1))),
         (cleanup (effect (commit_effects w1).2)).
Qed.

Lemma tied_dispatch now ev w :
  owned w → settled w → tied w → tied (dispatch now ev w).2.
Proof.
  intros (_ & _ & _ & Hn) Hs Ht.
  pose proof (dispatch_url_calls now ev w Hs) as H. cbv zeta in H.
  unfold tied in *. unfold settled in Hs.
  set (w' := (dispatch now ev w).2) in *.
  case_bool_decide as Hp.
  - destruct H as [-> ->]. by rewrite Hp.
  - destruct H as [-> Hnone].
    destruct (Form.profile (form (react w'))) as [f|].
    + destruct (cleanup (effect w')) as [u'|].
      * exists u'. split; [done|]. by rewrite !app_assoc, last_snoc.
      * destruct Hnone as [Hnone _]. by specialize (Hnone eq_refl).
    + destruct Hnone as [_ Hnone]. rewrite (Hnone eq_refl).
      split; [done|]. rewrite app_nil_r.
      destruct (cleanup (effect w)) as [u|] eqn:Hc.
      * intros f u'. by rewrite last_snoc.
      * destruct Hp. symmetry. rewrite <- Hs. by apply Hn.
Qed.

Lemma tied_run evs w :
  owned w → settled w → tied w → tied (run evs w).
Proof.
  revert w. induction evs as [|[now ev] evs IH]; intros w Ho Hs Ht; [done|].
  simpl. destruct (owned_dispatch now ev w Ho).
  apply IH; [done|done|by apply tied_dispatch].
Qed.

Lemma tied_mount JSON_parse storage now :
  tied (mount JSON_parse storage now).2.
Proof.
  unfold mount, load_effect, mbind, M_bind, tied. simpl.
  destruct (items storage !! KEY) as [saved|]; simpl; [|done].
  destruct (truthy saved); simpl; [destruct (JSON_parse saved)|]; done.
Qed.

Lemma elements_owned w :
  owned w →
  elements (live_urls w) =
    match cleanup (effect w) with Some u => [u] | None => [] end.
Proof.
  intros (_ & _ & -> & _). destruct (cleanup (effect w)); simpl.
  - apply elements_singleton.
  - apply elements_empty.
Qed.

(** Claim C9: in every run of events from the mount of the component, at
    most one object URL is live after each call into the browser; an
    object URL is created only when none is live; no object URL is live
    when the profile is null; and when it is not, the one live object
    URL is the last that was created, it was created for the profile of
    the form, and it is the one that the cleanup function in place will
    revoke.  An event that changes the profile revokes the object URL
    that is live, if any, and then, for a profile that is not null,
    creates the one that is live from then on; an event that leaves the
    profile creates and revokes nothing.  The events are those that keep
    the types of the form. *)
Theorem one_live_preview
    (JSON_parse : jsstring → option (list Submission.t))
    (storage : Storage) (now : Z) (evs : list (Z * Event)) :
  typed_run evs →
  let w := run evs (mount JSON_parse storage now).2 in
  (∀ p, p `prefix_of` calls w → size (live_after p) ≤ 1) ∧
  (∀ p f u, p ++ [CreateObjectURL f u] `prefix_of` calls w → live_after p = ∅) ∧
  live_urls w = live_after (calls w) ∧
  (Form.profile (form (react w)) = None → live_urls w = ∅) ∧
  (∀ f, Form.profile (form (react w)) = Some f →
        ∃ u, live_urls w = {[u]} ∧ cleanup (effect w) = Some u ∧
             last (url_calls (calls w)) = Some (CreateObjectURL f u)) ∧
  (∀ now' ev, typed ev = true →
     let w' := (dispatch now' ev w).2 in
     let p' := Form.profile (form (react w')) in
     if bool_decide (p' = Form.profile (form (react w)))
     then url_calls (calls w') = url_calls (calls w) ∧
          live_urls w' = live_urls w
     else ∃ created,
       url_calls (calls w') =
         url_calls (calls w) ++
         (RevokeObjectURL <$> elements (live_urls w)) ++ created ∧
       match p' with
       | Some f => ∃ u', created = [CreateObjectURL f u'] ∧ live_urls w' = {[u']}
       | None => created = [] ∧ live_urls w' = ∅
       end).
Proof.
  intros _ w.
  destruct (owned_mount JSON_parse storage now) as [Ho Hs].
  pose proof (tied_run evs _ Ho Hs (tied_mount _ _ _)) as Ht.
  destruct (owned_run evs _ Ho Hs) as [Hown Hset].
  fold w in Ht, Hown, Hset.
  pose proof Hown as (Hd & Hl & Hc & Hn).
  unfold settled in Hset.
  split; [|split; [|split; [|split; [|split]]]].
  - intros p Hp. eapply disciplined_size, disciplined_prefix; done.
  - intros p f u Hp. eapply disciplined_create_inv, disciplined_prefix; done.
  - done.
  - intros Hp. rewrite Hp in Hset. apply Hn in Hset. by rewrite Hc, Hset.
  - intros f Hp. unfold tied in Ht. rewrite Hp in Ht.
    destruct Ht as (u & Hcl & Hlast). exists u. by rewrite Hc, Hcl.
  - intros now' ev _ w' p'.
    pose proof (dispatch_url_calls now' ev w Hset) as H. cbv zeta in H.
    fold w' in H. fold p' in H.
    destruct (owned_dispatch now' ev w Hown) as [Hown' _]. fold w' in Hown'.
    destruct Hown' as (_ & _ & Hc' & _).
    rewrite (elements_owned w Hown), Hc', Hc.
    case_bool_decide.
    + destruct H as [-> ->]. done.
    + destruct H as [-> Hnone].
      destruct p' as [f|].
      * destruct (cleanup (effect w')) as [u'|].
        -- exists [CreateObjectURL f u']. split; [|by exists u'].
           by destruct (cleanup (effect w)).
        -- destruct Hnone as [Hnone _]. by specialize (Hnone eq_refl).
      * destruct Hnone as [_ Hnone]. rewrite (Hnone eq_refl). exists [].
        split; [|done]. by destruct (cleanup (effect w)).
Qed.

(** ** Timestamps: [toISOString] is injective on time values *)

Lemma days_ok_spec k lo x :
  days_ok k lo = true → (lo ≤ x < lo + 2 ^ Z.of_nat k)%Z → day_ok x = true.
Proof.
  revert lo. induction k as [|k IH]; intros lo H Hx.
  - simpl in *. by replace x with lo by lia.
  - simpl in H. apply andb_true_iff in H as [H1 H2].
    rewrite Nat2Z.inj_succ, Z.pow_succ_r in Hx by lia.
    destruct (decide (x < lo + 2 ^ Z.of_nat k)%Z).
    + apply (IH lo); [done|lia].
    + apply (IH (lo + 2 ^ Z.of_nat k)%Z); [done|lia].
Qed.

Lemma era_days_ok : days_ok 18 0 = true.
Proof. vm_compute. reflexivity. Qed.

Lemma day_ok_era doe : (0 ≤ doe < 146097)%Z → day_ok doe = true.
Proof.
  intros H. apply (days_ok_spec 18 0); [apply era_days_ok|].
  change (2 ^ Z.of_nat 18)%Z with 262144%Z. lia.
Qed.

Lemma civil_from_days_era day :
  civil_from_days day =
    let era := ((day + 719468) / 146097)%Z in
    let '(y, m, d) := civil_of_doe (day + 719468 - era * 146097) in
    ((y + era * 400)%Z, m, d).
Proof.
  unfold civil_from_days, civil_of_doe. cbv zeta.
  repeat match goal with |- context [if ?b then _ else _] => destruct b end;
    f_equal; f_equal; lia.
Qed.

(** The year, the month and the day of a day number determine it, and
    are in range. *)
Lemma civil_from_days_spec day y m d :
  civil_from_days day = (y, m, d) →
  (1 ≤ m ≤ 12 ∧ 1 ≤ d ≤ 31)%Z ∧
  ∃ era yoe,
    (0 ≤ yoe ≤ 399)%Z ∧ era = ((day + 719468) / 146097)%Z ∧
    (yoe = (if m <=? 2 then y - 1 else y) - era * 400)%Z ∧
    (day + 719468 - era * 146097 =
     doe_of_civil (yoe + if m <=? 2 then 1 else 0) m d)%Z.
Proof.
  rewrite civil_from_days_era. cbv zeta.
  set (era := ((day + 719468) / 146097)%Z).
  set (doe := (day + 719468 - era * 146097)%Z).
  assert (0 ≤ doe < 146097)%Z as Hdoe.
  { unfold doe, era. pose proof (Z.mod_pos_bound (day + 719468) 146097).
    rewrite Z.mod_eq in * by lia. lia. }
  pose proof (day_ok_era doe Hdoe) as Hok. unfold day_ok in Hok.
  destruct (civil_of_doe doe) as [[y' m'] d'].
  intros [= <- <- <-].
  apply orb_true_iff in Hok as [Hok|Hok]; [lia|].
  repeat (apply andb_true_iff in Hok as [Hok ?]).
  split; [lia|]. exists era, (if (m' <=? 2)%Z then y' - 1 else y')%Z.
  split; [lia|]. split; [done|]. split; [destruct (m' <=? 2)%Z; lia|].
  replace ((if (m' <=? 2)%Z then y' - 1 else y') +
           (if (m' <=? 2)%Z then 1 else 0))%Z with y'
    by (destruct (m' <=? 2)%Z; lia).
  lia.
Qed.

Lemma civil_from_days_inj day1 day2 :
  civil_from_days day1 = civil_from_days day2 → day1 = day2.
Proof.
  destruct (civil_from_days day1) as [[y m] d] eqn:E1. intros E2. symmetry in E2.
  apply civil_from_days_spec in E1 as (_ & era1 & yoe1 & Hy1 & He1 & Hr1 & Hd1).
  apply civil_from_days_spec in E2 as (_ & era2 & yoe2 & Hy2 & He2 & Hr2 & Hd2).
  assert (era1 = era2 ∧ yoe1 = yoe2) as [-> ->] by lia.
  rewrite <- Hd2 in Hd1. lia.
Qed.

(** The year of a time value has at most six digits. *)
Lemma civil_from_days_year day y m d :
  civil_from_days day = (y, m, d) →
  (-100000000 ≤ day ≤ 100000000)%Z → (-999999 ≤ y ≤ 999999)%Z.
Proof.
  intros (_ & era & yoe & ? & -> & ? & _)%civil_from_days_spec Hday.
  assert (-680 ≤ (day + 719468) / 146097 ≤ 690)%Z.
  { split; [apply Z.div_le_lower_bound|apply Z.div_le_upper_bound]; lia. }
  destruct (m <=? 2)%Z; lia.
Qed.

Lemma length_pad w n : length (pad w n) = w.
Proof.
  revert n. induction w as [|w IH]; intros n; simpl; [done|].
  rewrite length_app, IH. simpl. lia.
Qed.

Lemma pad_inj w n1 n2 :
  (0 ≤ n1 < 10 ^ Z.of_nat w)%Z → (0 ≤ n2 < 10 ^ Z.of_nat w)%Z →
  pad w n1 = pad w n2 → n1 = n2.
Proof.
  revert n1 n2. induction w as [|w IH]; intros n1 n2 H1 H2 E.
  - simpl in *. lia.
  - rewrite Nat2Z.inj_succ, Z.pow_succ_r in H1, H2 by lia.
    simpl in E. apply app_inj_tail in E as [E Ed].
    apply IH in E; [| |].
    + pose proof (Z.mod_pos_bound n1 10). pose proof (Z.mod_pos_bound n2 10).
      pose proof (Z.div_mod n1 10). pose proof (Z.div_mod n2 10). lia.
    + split; [apply Z.div_pos|apply Z.div_lt_upper_bound]; lia.
    + split; [apply Z.div_pos|apply Z.div_lt_upper_bound]; lia.
Qed.

(** Two renderings with fields of the same width agree field by field. *)
Lemma pad_app_inj w n1 n2 (r1 r2 : jsstring) :
  pad w n1 ++ r1 = pad w n2 ++ r2 → pad w n1 = pad w n2 ∧ r1 = r2.
Proof. apply app_inj_1. by rewrite !length_pad. Qed.

Lemma year_string_inj y1 y2 :
  (-999999 ≤ y1 ≤ 999999)%Z → (-999999 ≤ y2 ≤ 999999)%Z →
  year_string y1 = year_string y2 → y1 = y2.
Proof.
  unfold year_string. intros H1 H2 E.
  destruct ((0 <=? y1) && (y1 <=? 9999))%Z eqn:E1;
    destruct ((0 <=? y2) && (y2 <=? 9999))%Z eqn:E2.
  - apply pad_inj in E; [done| |]; change (10 ^ Z.of_nat 4)%Z with 10000%Z; lia.
  - apply (f_equal length) in E. rewrite length_cons, !length_pad in E. lia.
  - apply (f_equal length) in E. rewrite length_cons, !length_pad in E. lia.
  - remember (pad 6 (Z.abs y1)) as p1 eqn:Ep1.
    remember (pad 6 (Z.abs y2)) as p2 eqn:Ep2.
    injection E as Es E. subst p1 p2.
    apply pad_inj in E; [| |]; try (change (10 ^ Z.of_nat 6)%Z with 1000000%Z; lia).
    destruct (y1 <? 0)%Z eqn:?, (y2 <? 0)%Z eqn:?; try done; lia.
Qed.

Lemma sep_pad_app_inj c w n1 n2 (r1 r2 : jsstring) :
  c :: pad w n1 ++ r1 = c :: pad w n2 ++ r2 → pad w n1 = pad w n2 ∧ r1 = r2.
Proof. intros [= E]. by apply pad_app_inj. Qed.

Lemma day_time_inj r1 r2 :
  (0 ≤ r1 < 86400000)%Z → (0 ≤ r2 < 86400000)%Z →
  (r1 / 3600000 = r2 / 3600000)%Z →
  (r1 / 60000 mod 60 = r2 / 60000 mod 60)%Z →
  (r1 / 1000 mod 60 = r2 / 1000 mod 60)%Z →
  (r1 mod 1000 = r2 mod 1000)%Z →
  r1 = r2.
Proof. intros. Z.div_mod_to_equations. lia. Qed.

(** Two time values with the same rendering are the same. *)
Lemma toISOString_inj t1 t2 :
  time_value t1 → time_value t2 → toISOString t1 = toISOString t2 → t1 = t2.
Proof.
  unfold time_value, toISOString. intros H1 H2. cbv zeta.
  destruct (civil_from_days (t1 / 86400000)) as [[y1 m1] d1] eqn:E1.
  destruct (civil_from_days (t2 / 86400000)) as [[y2 m2] d2] eqn:E2.
  pose proof (Z.mod_pos_bound t1 86400000) as Hr1.
  pose proof (Z.mod_pos_bound t2 86400000) as Hr2.
  set (r1 := (t1 mod 86400000)%Z) in *. set (r2 := (t2 mod 86400000)%Z) in *.
  intros E.
  apply app_inj_2 in E as [Ey E];
    [|by rewrite !length_app, !length_pad].
  change (js "-") with [45%N] in E. change (js "T") with [84%N] in E.
  change (js ":") with [58%N] in E. change (js ".") with [46%N] in E.
  cbn [app] in E.
  apply sep_pad_app_inj in E as [Em E]. apply sep_pad_app_inj in E as [Ed E].
  apply sep_pad_app_inj in E as [Eh E]. apply sep_pad_app_inj in E as [Emi E].
  apply sep_pad_app_inj in E as [Es E]. apply sep_pad_app_inj in E as [Ems _].
  assert (-100000000 ≤ t1 / 86400000 ≤ 100000000)%Z.
  { split; [apply Z.div_le_lower_bound|apply Z.div_le_upper_bound]; lia. }
  assert (-100000000 ≤ t2 / 86400000 ≤ 100000000)%Z.
  { split; [apply Z.div_le_lower_bound|apply Z.div_le_upper_bound]; lia. }
  pose proof (civil_from_days_year _ _ _ _ E1).
  pose proof (civil_from_days_year _ _ _ _ E2).
  pose proof (civil_from_days_spec _ _ _ _ E1) as [? _].
  pose proof (civil_from_days_spec _ _ _ _ E2) as [? _].
  apply year_string_inj in Ey; [|lia|lia].
  apply pad_inj in Em; [|change (10 ^ Z.of_nat 2)%Z with 100%Z; lia..].
  apply pad_inj in Ed; [|change (10 ^ Z.of_nat 2)%Z with 100%Z; lia..].
  assert (t1 / 86400000 = t2 / 86400000)%Z as Eday.
  { apply civil_from_days_inj. congruence. }
  assert (r1 = r2) as Er.
  { apply day_time_inj; [lia|lia|..].
    - apply pad_inj in Eh; [done|change (10 ^ Z.of_nat 2)%Z with 100%Z..].
      + split; [apply Z.div_pos|apply Z.div_lt_upper_bound]; lia.
      + split; [apply Z.div_pos|apply Z.div_lt_upper_bound]; lia.
    - apply pad_inj in Emi; [done|change (10 ^ Z.of_nat 2)%Z with 100%Z..].
      + pose proof (Z.mod_pos_bound (r1 / 60000) 60). lia.
      + pose proof (Z.mod_pos_bound (r2 / 60000) 60). lia.
    - apply pad_inj in Es; [done|change (10 ^ Z.of_nat 2)%Z with 100%Z..].
      + pose proof (Z.mod_pos_bound (r1 / 1000) 60). lia.
      + pose proof (Z.mod_pos_bound (r2 / 1000) 60). lia.
    - apply pad_inj in Ems; [done|change (10 ^ Z.of_nat 3)%Z with 1000%Z..].
      + pose proof (Z.mod_pos_bound r1 1000). lia.
      + pose proof (Z.mod_pos_bound r2 1000). lia. }
  rewrite (Z.div_mod t1 86400000), (Z.div_mod t2 86400000) by lia.
  fold r1 r2. by rewrite Eday, Er.
Qed.

(** ** Submissions in sequence *)

Lemma dispatch_submit_readers now w :
  validate (form (react w)) = ∅ →
  readers (dispatch now Submit w).2 =
    match Form.profile (form (react w)) with
    | Some file => readers w ++ [{| reading := file; onload_closure := react w |}]
    | None => readers w
    end.
Proof.
  intros Hv. unfold dispatch. simpl handler.
  rewrite handleSubmit_valid by done. simpl Form.profile.
  destruct (Form.profile (form (react w))) as [file|].
  - run_handler.
    match goal with |- context [commit_effects ?w1] =>
      destruct (commit_effects_frame w1) as (_ & _ & _ & _ & -> & _)
    end.
    done.
  - match goal with |- context [saveSubmission ?c ?f ?u ?w0] =>
      destruct (decide (fits (JSON_stringify
        (toSave f u (toISOString (clock w0)) :: submissions c)) w0))
    end.
    + rewrite saveSubmission_ok by done. simpl.
      match goal with |- context [commit_effects ?w1] =>
        destruct (commit_effects_frame w1) as (_ & _ & _ & _ & -> & _)
      end.
      done.
    + rewrite saveSubmission_fail by done. simpl.
      match goal with |- context [commit_effects ?w1] =>
        destruct (commit_effects_frame w1) as (_ & _ & _ & _ & -> & _)
      end.
      done.
Qed.

(** A whole submission of a valid form puts its record in front of the
    submissions, stamped with the clock reading at which it is saved. *)
Lemma submit_submissions now later result w :
  validate (form (react w)) = ∅ →
  submissions (react (submit now later result w)) =
    toSave (form (react w)) (image (form (react w)) result)
      (toISOString (created_at (form (react w)) now later))
    :: submissions (react w).
Proof.
  intros Hv. unfold submit, image, created_at.
  rewrite dispatch_submit_readers by done.
  destruct (Form.profile (form (react w))) as [file|] eqn:Hp.
  - rewrite length_app. simpl.
    replace (length (readers w) <? length (readers w) + 1)%nat with true
      by (symmetry; apply Nat.ltb_lt; lia).
    match goal with |- context [dispatch later ?ev ?w1] =>
      destruct (dispatch_persists later ev w1
                  (toSave (form (react w)) (Some result) (toISOString later)
                   :: submissions (react w))) as [-> _]
    end; [|done].
    pose proof (persists_load (dispatch now Submit w).2 later
                  (length (readers w)) result
                  {| reading := file; onload_closure := react w |}) as H.
    apply H. rewrite dispatch_submit_readers, Hp by done.
    by apply list_lookup_middle.
  - rewrite Nat.ltb_irrefl.
    by destruct (dispatch_persists now Submit w _ (persists_submit w now Hv Hp))
      as [-> _].
Qed.

(** Claim C7, as amended: the timestamp of a record is the rendering of the
    clock reading at which the record is saved.  Of two submissions in
    sequence, the second made once the submissions show the record of the
    first, the two records are the first two of the submissions, the
    newer first; their timestamps are distinct when the two clock
    readings are distinct time values, and the same when the readings
    are the same. *)
Theorem two_submissions_newest_first
    (w w' : World) (now1 later1 now2 later2 : Z) (result1 result2 : jsstring) :
  validate (form (react w)) = ∅ →
  validate (form (react w')) = ∅ →
  submissions (react w') = submissions (react (submit now1 later1 result1 w)) →
  let t1 := created_at (form (react w)) now1 later1 in
  let t2 := created_at (form (react w')) now2 later2 in
  ∃ record1 record2,
    submissions (react (submit now2 later2 result2 w')) =
      record2 :: record1 :: submissions (react w) ∧
    Submission.timestamp record1 = toISOString t1 ∧
    Submission.timestamp record2 = toISOString t2 ∧
    (time_value t1 → time_value t2 → t1 ≠ t2 →
     Submission.timestamp record1 ≠ Submission.timestamp record2) ∧
    (t1 = t2 → Submission.timestamp record1 = Submission.timestamp record2).
Proof.
  intros Hv Hv' Hs t1 t2.
  rewrite (submit_submissions now1 later1 result1 w Hv) in Hs.
  eexists _, _. split.
  { rewrite (submit_submissions now2 later2 result2 w' Hv'), Hs. done. }
  simpl. fold t1 t2. split; [done|]. split; [done|]. split.
  - intros H1 H2 Hne E. by apply Hne, toISOString_inj.
  - by intros ->.
Qed.

(** Ana submits at time 5 and again at time 6. *)
Lemma two_submissions_newest_first_witness :
  let w := run (fill_ana 5) fresh in
  let w' := run (fill_ana 6) (submit 5 5 [] w) in
  ∃ record1 record2,
    submissions (react (submit 6 6 [] w')) = [record2; record1] ∧
    Submission.timestamp record1 = js "1970-01-01T00:00:00.005Z" ∧
    Submission.timestamp record2 = js "1970-01-01T00:00:00.006Z" ∧
    Submission.timestamp record1 ≠ Submission.timestamp record2.
Proof.
  intros w w'.
  assert (validate (form (react w)) = ∅) as Hv by (vm_compute; reflexivity).
  assert (validate (form (react w')) = ∅) as Hv' by (vm_compute; reflexivity).
  assert (submissions (react w') = submissions (react (submit 5 5 [] w))) as Hs
    by (vm_compute; reflexivity).
  destruct (two_submissions_newest_first w w' 5 5 6 6 [] [] Hv Hv' Hs)
    as (record1 & record2 & H & H1 & H2 & Hne & _).
  exists record1, record2. split; [exact H|].
  assert (created_at (form (react w)) 5 5 = 5%Z) as E1 by (vm_compute; reflexivity).
  assert (created_at (form (react w')) 6 6 = 6%Z) as E2 by (vm_compute; reflexivity).
  rewrite E1 in H1, Hne. rewrite E2 in H2, Hne. clear - H1 H2 Hne.
  split; [exact H1|]. split; [exact H2|].
  apply Hne; unfold time_value; lia.
Defined.

(** Claim C7 as stated fails when two submissions are saved at the same clock
    reading: their records have the same timestamp. *)
Lemma same_reading_same_timestamp :
  let w := run (fill_ana 5) fresh in
  let w' := run (fill_ana 5) (submit 5 5 [] w) in
  ∃ record1 record2,
    submissions (react (submit 5 5 [] w')) = [record2; record1] ∧
    Submission.timestamp record1 = Submission.timestamp record2.
Proof.
  intros w w'. eexists _, _. split; vm_compute; reflexivity.
Qed.

(** Two images picked in turn, then none. *)
Lemma one_live_preview_witness :
  let f1 := {| file_ref := 1 |} in
  let f2 := {| file_ref := 2 |} in
  let w := run [(1%Z, FileChange [f1]); (2%Z, FileChange [f2]); (3%Z, FileChange [])]
             (mount (fun _ => None) {| items := ∅; quota := 1000 |} 0).2 in
  calls w = [CreateObjectURL f1 {| url_id := 0 |}; RevokeObjectURL {| url_id := 0 |};
             CreateObjectURL f2 {| url_id := 1 |}; RevokeObjectURL {| url_id := 1 |}] ∧
  live_urls w = ∅ ∧
  (∀ p, p `prefix_of` calls w → size (live_after p) ≤ 1).
Proof.
  intros f1 f2 w.
  destruct (one_live_preview (fun _ => None) {| items := ∅; quota := 1000 |} 0
              [(1%Z, FileChange [f1]); (2%Z, FileChange [f2]); (3%Z, FileChange [])])
    as (H1 & _ & _ & H4 & _).
  { repeat constructor. }
  split; [vm_compute; reflexivity|]. split; [|exact H1].
  apply H4. vm_compute. reflexivity.
Defined.

(** ** The validator as a whole *)

Lemma validate_name f :
  validate f !! "name" =
    if negb (truthy (trim (Form.name f))) then Some "Name is required." else None.
Proof.
  unfold validate.
  repeat match goal with |- context [if ?b then _ else _] => destruct b end;
    by simplify_map_eq.
Qed.

Lemma validate_gender f :
  validate f !! "gender" =
    if negb (truthy (Form.gender f)) then Some "Please select your gender."
    else None.
Proof.
  unfold validate.
  repeat match goal with |- context [if ?b then _ else _] => destruct b end;
    by simplify_map_eq.
Qed.

Lemma validate_agree f :
  validate f !! "agree" =
    if negb (Form.agree f) then Some "You must agree to the terms." else None.
Proof.
  unfold validate.
  repeat match goal with |- context [if ?b then _ else _] => destruct b end;
    by simplify_map_eq.
Qed.

Lemma validate_other f k : k ∉ error_keys → validate f !! k = None.
Proof.
  unfold error_keys. rewrite !not_elem_of_cons. intros (? & ? & ? & ? & ? & _).
  unfold validate.
  repeat match goal with |- context [if ?b then _ else _] => destruct b end;
    by simplify_map_eq.
Qed.

Lemma truthy_trim_blank s : truthy (trim s) = false ↔ blank s.
Proof.
  unfold blank. rewrite <- trim_nil. by destruct (trim s).
Qed.

(** [validate] returns the empty object when its five lookups are empty. *)
Lemma validate_empty_lookups f :
  validate f = ∅ ↔ ∀ k, k ∈ error_keys → validate f !! k = None.
Proof.
  split; [by intros ->|].
  intros H. apply map_eq. intros k. rewrite lookup_empty.
  destruct (decide (k ∈ error_keys)); [by apply H|by apply validate_other].
Qed.

Lemma validate_name_None f : validate f !! "name" = None ↔ ¬ blank (Form.name f).
Proof.
  rewrite validate_name, <- truthy_trim_blank.
  destruct (truthy (trim (Form.name f))); simpl; split; done.
Qed.

Lemma validate_email_None f :
  validate f !! "email" = None ↔ email_shape (Form.email f).
Proof.
  rewrite validate_email, <- email_pattern_shape. split.
  - destruct (negb (truthy _)); [done|]. by destruct (test _ _).
  - intros Ht. rewrite Ht. simpl.
    apply email_pattern_shape in Ht as (x & y & z & E & _).
    rewrite (truthy_trim _ 64%N); [done| |done]. rewrite E.
    apply elem_of_app. right. by left.
Qed.

Lemma validate_age_None f :
  validate f !! "age" = None ↔
  Form.age f = [] ∨ gt (Number (Form.age f)) zero = true.
Proof.
  rewrite validate_age_eq, not_positive.
  destruct (Form.age f) as [|c s]; simpl; [by split; [left|]|].
  destruct (gt _ _); simpl; split; try done; [by right|by intros [?|?]].
Qed.

Lemma validate_gender_None f :
  validate f !! "gender" = None ↔ Form.gender f ≠ [].
Proof. rewrite validate_gender. by destruct (Form.gender f). Qed.

Lemma validate_agree_None f :
  validate f !! "agree" = None ↔ Form.agree f = true.
Proof. rewrite validate_agree. by destruct (Form.agree f). Qed.

(** X1.  The validator returns no error exactly for the forms whose name
    is not blank, whose email has the shape [x@y.z], whose age is empty
    or parsed to a number greater than zero, whose gender is not empty
    and whose agreement is checked. *)
Theorem validate_submittable (f : Form.t) : validate f = ∅ ↔ submittable f.
Proof.
  rewrite validate_empty_lookups. unfold submittable, error_keys.
  rewrite <- validate_name_None, <- validate_email_None, <- validate_age_None,
    <- validate_gender_None, <- validate_agree_None.
  split.
  - intros H. repeat split; apply H; set_solver.
  - intros (? & ? & ? & ? & ?) k Hk.
    repeat (apply elem_of_cons in Hk as [->|Hk]; [done|]).
    by apply elem_of_nil in Hk.
Qed.

(** X2.  The name is required up to white space, the gender only has to
    be a non-empty string, whichever, and the agreement has to be
    checked: each of the three errors is recorded, with its message,
    exactly when its field fails, whatever the other fields are. *)
Theorem validate_required (f : Form.t) :
  (validate f !! "name" = Some "Name is required." ↔ blank (Form.name f)) ∧
  (validate f !! "gender" = Some "Please select your gender." ↔
   Form.gender f = []) ∧
  (validate f !! "agree" = Some "You must agree to the terms." ↔
   Form.agree f = false).
Proof.
  rewrite validate_name, validate_gender, validate_agree, <- truthy_trim_blank.
  split; [|split].
  - by destruct (truthy (trim (Form.name f))).
  - by destruct (Form.gender f).
  - by destruct (Form.agree f).
Qed.

(** X3.  The validator reads the name, the email, the age, the gender and
    the agreement only, so that the bio, the hobbies and the profile are
    never a cause of error, and it reports under these five names only. *)
Theorem validate_reads_five_fields (f f' : Form.t) :
  Form.name f = Form.name f' → Form.email f = Form.email f' →
  Form.age f = Form.age f' → Form.gender f = Form.gender f' →
  Form.agree f = Form.agree f' →
  validate f = validate f' ∧
  ∀ k, is_Some (validate f !! k) → k ∈ error_keys.
Proof.
  intros Hn He Ha Hg Hag. split.
  - unfold validate. by rewrite Hn, He, Ha, Hg, Hag.
  - intros k Hk. destruct (decide (k ∈ error_keys)) as [|Hno]; [done|].
    rewrite (validate_other f k Hno) in Hk. by destruct Hk.
Qed.

(** The form of Ana with an image has the errors of the form of Ana: none. *)
Lemma validate_reads_five_fields_witness :
  validate ana_with_image = validate ana.
Proof.
  exact (proj1 (validate_reads_five_fields ana_with_image ana
                  eq_refl eq_refl eq_refl eq_refl eq_refl)).
Defined.

(** ** Events, one by one *)

(** Rewrites what a commit leaves of the state and of the store. *)
Ltac commit_frame :=
  match goal with |- context [commit_effects ?w1] =>
    let Ef := fresh in let Ee := fresh in let Es := fresh in
    let El := fresh in let Er := fresh in let Ew := fresh in
    destruct (commit_effects_frame w1) as (Ef & Ee & Es & El & Er & _ & Ew);
    simpl in Ef, Ee, Es, El, Er, Ew;
    rewrite ?Ef, ?Ee, ?Es, ?El, ?Er, ?Ew; clear Ef Ee Es El Er Ew
  end.

(** What an event does with the submissions and the store: nothing, or
    one write of the submissions it leaves, which the store takes or
    refuses. *)
Lemma dispatch_store now ev w :
  let r := dispatch now ev w in
  (r.1 = Return tt ∧ submissions (react r.2) = submissions (react w) ∧
   localStorage r.2 = localStorage w ∧
   written (calls r.2) = written (calls w)) ∨
  (r.1 = Return tt ∧ fits (JSON_stringify (submissions (react r.2))) w ∧
   localStorage r.2 =
     {| items := <[KEY := JSON_stringify (submissions (react r.2))]>
                   (items (localStorage w));
        quota := quota (localStorage w) |} ∧
   written (calls r.2) =
     written (calls w) ++
       [SetItem KEY (JSON_stringify (submissions (react r.2))) true]) ∨
  (r.1 = Throw QuotaExceededError ∧
   ¬ fits (JSON_stringify (submissions (react r.2))) w ∧
   localStorage r.2 = localStorage w ∧
   written (calls r.2) =
     written (calls w) ++
       [SetItem KEY (JSON_stringify (submissions (react r.2))) false]).
Proof.
  unfold dispatch, fits.
  destruct ev as [e|files| | |ts|i result]; run_handler.
  - repeat case_bool_decide; simpl; commit_frame; by left.
  - commit_frame. by left.
  - destruct (0 <? _)%nat; simpl; [commit_frame; by left|].
    destruct (Form.profile (form (react w))); simpl.
    { commit_frame. rewrite written_app, app_nil_r. by left. }
    destruct (_ <=? _)%nat eqn:E; simpl; commit_frame; rewrite written_app.
    + apply Nat.leb_le in E. right. by left.
    + apply Nat.leb_nle in E. right. by right.
  - commit_frame. by left.
  - destruct (_ <=? _)%nat eqn:E; simpl; commit_frame; rewrite written_app.
    + apply Nat.leb_le in E. right. by left.
    + apply Nat.leb_nle in E. right. by right.
  - destruct (readers w !! i); [|simpl; commit_frame; by left].
    run_handler.
    destruct (_ <=? _)%nat eqn:E; simpl; commit_frame; rewrite written_app.
    + apply Nat.leb_le in E. right. by left.
    + apply Nat.leb_nle in E. right. by right.
Qed.

(** X4.  As long as the store refuses no write, it holds the snapshot of
    the submissions in memory: an event that keeps the types of the form
    and returns leaves the two in agreement.  The only error that the
    handler of an event throws is the [QuotaExceededError] of a refused
    write, which leaves the store as it was; and the items in store
    never outgrow the quota. *)
Theorem store_follows_memory (now : Z) (ev : Event) (w : World) :
  typed ev = true → in_sync w → within_quota w →
  let r := dispatch now ev w in
  within_quota r.2 ∧
  (r.1 = Return tt → in_sync r.2) ∧
  (∀ e, r.1 = Throw e → e = QuotaExceededError ∧ localStorage r.2 = localStorage w).
Proof.
  intros _ Hs Hq r. unfold in_sync, snapshot, within_quota in *.
  destruct (dispatch_store now ev w) as [H|[H|H]]; fold r in H.
  - destruct H as (-> & -> & -> & _). by repeat split.
  - destruct H as (-> & Hf & -> & _). simpl. rewrite lookup_insert_eq.
    by repeat split.
  - destruct H as (-> & _ & -> & _). repeat split; try done; congruence.
Qed.

(** A delete on a list of two records. *)
Lemma store_follows_memory_witness :
  let w := listing [record_of "a" "t1"; record_of "b" "t2"] in
  in_sync (dispatch 0 (Delete (js "t1")) w).2.
Proof.
  intros w.
  destruct (store_follows_memory 0 (Delete (js "t1")) w eq_refl
              (listing_in_sync _)) as (_ & H & _).
  { unfold within_quota. vm_compute. lia. }
  apply H. vm_compute. reflexivity.
Defined.

(** X5.  A change event that keeps the types of the form does nothing
    but edit the form: it validates nothing, the errors on display stay;
    it submits, stores and reads nothing; and it leaves the profile
    alone. *)
Theorem change_edits_only (now : Z) (e : Target.t) (w : World) :
  typed (Change e) = true →
  let r := dispatch now (Change e) w in
  r.1 = Return tt ∧
  errors (react r.2) = errors (react w) ∧
  submissions (react r.2) = submissions (react w) ∧
  Form.profile (form (react r.2)) = Form.profile (form (react w)) ∧
  localStorage r.2 = localStorage w ∧
  readers r.2 = readers w ∧
  written (calls r.2) = written (calls w).
Proof.
  intros _. unfold dispatch. run_handler. unfold assign_boolean, assign_string.
  repeat case_bool_decide; simpl; commit_frame; done.
Qed.

(** Typing a name after a halted submit: the error of the email stays. *)
Lemma change_edits_only_witness :
  let e := {| Target.name := "name"; Target.value := js "Ana";
              Target.type := "text"; Target.checked := false |} in
  let w := showing (with_email "bad") [] ∅ 1000 in
  let r := dispatch 1 (Change e) (dispatch 0 Submit w).2 in
  errors (react r.2) !! "email" = Some "Enter a valid email." ∧
  localStorage r.2 = localStorage w.
Proof.
  intros e w r.
  destruct (change_edits_only 1 e (dispatch 0 Submit w).2 eq_refl)
    as (_ & H2 & _ & _ & H5 & _).
  fold r in H2, H5. rewrite H2, H5. clear. vm_compute. split; reflexivity.
Defined.

(** X6.  A change of an input that is no checkbox writes its value to
    the string property of its name and to no other; a change of the
    [agree] checkbox writes its state to [agree] and nothing else. *)
Theorem change_writes_field (now : Z) (e : Target.t) (w : World) :
  let f := form (react w) in
  let f' := form (react (dispatch now (Change e) w).2) in
  (Target.type e ≠ "checkbox" → Target.name e ∈ string_keys →
   field (Target.name e) f' = Some (Target.value e) ∧
   (∀ k, k ≠ Target.name e → field k f' = field k f) ∧
   Form.hobbies f' = Form.hobbies f ∧ Form.agree f' = Form.agree f ∧
   Form.profile f' = Form.profile f) ∧
  (Target.type e = "checkbox" → Target.name e = "agree" →
   Form.agree f' = Target.checked e ∧
   (∀ k, field k f' = field k f) ∧
   Form.hobbies f' = Form.hobbies f ∧ Form.profile f' = Form.profile f).
Proof.
  unfold dispatch. run_handler. split.
  - intros Ht Hk. rewrite bool_decide_eq_false_2 by done. simpl. commit_frame.
    unfold string_keys in Hk.
    repeat (apply elem_of_cons in Hk as [->|Hk];
      [repeat split; try done; intros k Hne; unfold field;
       repeat case_bool_decide; by simplify_eq|]).
    by apply elem_of_nil in Hk.
  - intros -> ->. simpl. by commit_frame.
Qed.

(** The events of the rendered form keep the types of its properties. *)
Lemma rendered_typed c ev : rendered c ev → typed ev = true.
Proof.
  destruct 1 as [k v Hk| | | | | | | | |]; try done.
  repeat (apply elem_of_cons in Hk as [->|Hk]; [done|]).
  by apply elem_of_nil in Hk.
Qed.

Lemma rendered_run_typed evs w : rendered_run w evs → typed_run evs.
Proof.
  revert w. induction evs as [|[now ev] evs IH]; intros w; [by constructor|].
  intros [Hev Hr]. constructor; [by apply (rendered_typed (react w))|by eapply IH].
Qed.

(** ** The preview on display *)

(** A handler leaves the preview, or clears it with the form. *)
Lemma handler_preview c ev w :
  let w' := (handler c ev w).2 in
  preview (react w') = preview (react w) ∨
  (preview (react w') = None ∧ Form.profile (form (react w')) = None).
Proof.
  destruct ev as [e|files| | |ts|i result]; run_handler.
  - repeat case_bool_decide; by left.
  - by left.
  - destruct (0 <? _)%nat; [by left|].
    destruct (Form.profile (form c)); [by left|].
    simpl. destruct (_ <=? _)%nat; simpl; auto.
  - by right.
  - destruct (_ <=? _)%nat; simpl; auto.
  - destruct (readers w !! i); [|by left].
    run_handler. destruct (_ <=? _)%nat; simpl; auto.
Qed.

Lemma shown_commit w :
  owned w →
  preview (react w) = cleanup (effect w) ∨
    (preview (react w) = None ∧ Form.profile (form (react w)) = None) →
  shown (commit_effects w).2.
Proof.
  intros (_ & _ & _ & Hn) Hp. unfold shown. run_effects.
  case_bool_decide as Hd; simpl.
  - destruct Hp as [?|[-> Hp]]; [done|].
    rewrite Hp in Hd. symmetry. by apply Hn.
  - by destruct (cleanup (effect w)), (Form.profile (form (react w))).
Qed.

Lemma shown_dispatch now ev w :
  owned w → shown w → shown (dispatch now ev w).2.
Proof.
  intros Ho Hs. unfold dispatch.
  set (w0 := (set_clock now w).2).
  pose proof (owned_handler (react w0) ev w0 Ho) as Ho'.
  pose proof (handler_preview (react w0) ev w0) as Hp.
  destruct (handler_frame (react w0) ev w0) as (He & _).
  destruct (handler (react w0) ev w0) as [o w1].
  apply shown_commit; [done|]. simpl in Hp, He. rewrite He.
  destruct Hp as [->|?]; [by left|by right].
Qed.

Lemma shown_run evs w :
  owned w → settled w → shown w →
  owned (run evs w) ∧ settled (run evs w) ∧ shown (run evs w).
Proof.
  revert w. induction evs as [|[now ev] evs IH]; intros w Ho Hs Hsh; [done|].
  simpl. destruct (owned_dispatch now ev w Ho).
  apply IH; [done|done|by apply shown_dispatch].
Qed.

Lemma shown_mount JSON_parse storage now :
  shown (mount JSON_parse storage now).2.
Proof.
  unfold mount, load_effect, mbind, M_bind, shown. simpl.
  destruct (items storage !! KEY) as [saved|]; simpl; [|done].
  destruct (truthy saved); simpl; [destruct (JSON_parse saved)|]; done.
Qed.

(** X7.  In every run of events that keep the types of the form, from
    the mount of the component, the preview on display is the object
    URL that is live, which is the one of the profile of the form; and
    the placeholder is on display exactly when the form has no profile,
    with no object URL live. *)
Theorem preview_shows_live_url
    (JSON_parse : jsstring → option (list Submission.t))
    (storage : Storage) (now : Z) (evs : list (Z * Event)) :
  typed_run evs →
  let w := run evs (mount JSON_parse storage now).2 in
  match preview (react w) with
  | Some u => live_urls w = {[u]} ∧ is_Some (Form.profile (form (react w)))
  | None => live_urls w = ∅ ∧ Form.profile (form (react w)) = None
  end.
Proof.
  intros _ w.
  destruct (owned_mount JSON_parse storage now) as [Ho Hs].
  destruct (shown_run evs _ Ho Hs (shown_mount _ _ _))
    as ((_ & _ & Hc & Hn) & Hset & Hsh).
  fold w in Hc, Hn, Hset, Hsh. unfold shown, settled in *.
  rewrite Hsh, Hc. destruct (cleanup (effect w)) as [u|]; simpl.
  - split; [done|]. rewrite <- Hset.
    destruct (deps (effect w)); [by eexists|]. by destruct Hn as [_ Hn'];
      specialize (Hn' eq_refl).
  - split; [done|]. rewrite <- Hset. by apply Hn.
Qed.

(** An image picked on the freshly mounted component. *)
Lemma preview_shows_live_url_witness :
  let w := run [(1%Z, FileChange [portrait])]
             (mount (fun _ => None) {| items := ∅; quota := 1000 |} 0).2 in
  preview (react w) = Some {| url_id := 0 |} ∧
  live_urls w = {[ {| url_id := 0 |} ]}.
Proof.
  intros w.
  assert (preview (react w) = Some {| url_id := 0 |}) as Hp
    by (vm_compute; reflexivity).
  pose proof (preview_shows_live_url (fun _ => None)
                {| items := ∅; quota := 1000 |} 0 [(1%Z, FileChange [portrait])])
    as H.
  cbv zeta in H. fold w in H. rewrite Hp in H.
  split; [reflexivity|]. apply H. by repeat constructor.
Defined.

(** ** Reset, mount and reload *)

Lemma commit_without_profile w :
  Form.profile (form (react w)) = None → preview (react w) = None →
  preview (react (commit_effects w).2) = None.
Proof.
  intros Hp Hv. run_effects. rewrite Hp.
  case_bool_decide; simpl; [done|]. by destruct (cleanup (effect w)).
Qed.

(** X8.  The Reset button gives back the initial form, clears the errors
    and the preview and releases the object URL of the preview; it keeps
    the submissions, stores nothing and leaves the pending readers. *)
Theorem reset_clears (now : Z) (w : World) :
  let r := dispatch now Reset w in
  r.1 = Return tt ∧
  form (react r.2) = Form.initial ∧
  errors (react r.2) = ∅ ∧
  preview (react r.2) = None ∧
  submissions (react r.2) = submissions (react w) ∧
  localStorage r.2 = localStorage w ∧
  readers r.2 = readers w ∧
  written (calls r.2) = written (calls w) ∧
  (owned w → live_urls r.2 = ∅).
Proof.
  intros r.
  assert (preview (react r.2) = None) as Hp.
  { unfold r, dispatch. run_handler. by apply commit_without_profile. }
  assert (owned w → live_urls r.2 = ∅) as Hl.
  { intros Ho. destruct (owned_dispatch now Reset w Ho) as [(_ & _ & Hc & Hn) Hs].
    fold r in Hc, Hn, Hs. unfold settled in Hs.
    assert (Form.profile (form (react r.2)) = None) as Hnone.
    { unfold r, dispatch. run_handler. by commit_frame. }
    rewrite Hnone in Hs. apply Hn in Hs. by rewrite Hc, Hs. }
  revert Hp Hl. unfold r, dispatch. run_handler. intros Hp Hl.
  repeat split; try done; by commit_frame.
Qed.

(** X9.  Mounting on a store that has no item under the key, or the
    empty string, does not call [JSON.parse]: whatever [JSON.parse] is,
    the load effect returns and the component starts with no
    submissions, the initial form, no errors and no preview; the store
    is as it was and nothing was called in the browser. *)
Theorem mount_loads
    (JSON_parse : jsstring → option (list Submission.t))
    (storage : Storage) (now : Z) :
  items storage !! KEY = None ∨ items storage !! KEY = Some [] →
  let r := mount JSON_parse storage now in
  r.1 = Return tt ∧
  react r.2 = {| form := Form.initial; preview := None; errors := ∅;
                 submissions := [] |} ∧
  localStorage r.2 = storage ∧
  calls r.2 = [] ∧
  readers r.2 = [].
Proof.
  unfold mount, load_effect, mbind, M_bind. simpl.
  by intros [->| ->].
Qed.

(** A store without the item, and one that holds the empty string under
    the key and something else under another. *)
Lemma mount_loads_witness :
  let stored : gmap string jsstring := {[ KEY := []; "theme" := js "dark" ]} in
  let parse (_ : jsstring) : option (list Submission.t) := Some [record_of "a" "t1"] in
  (mount parse {| items := ∅; quota := 1000 |} 0).1 = Return tt ∧
  submissions (react (mount parse {| items := stored; quota := 1000 |} 0).2) = [] ∧
  localStorage (mount parse {| items := stored; quota := 1000 |} 0).2 =
    {| items := stored; quota := 1000 |}.
Proof.
  intros stored parse.
  destruct (mount_loads parse {| items := ∅; quota := 1000 |} 0) as (H1 & _).
  { left. reflexivity. }
  destruct (mount_loads parse {| items := stored; quota := 1000 |} 0)
    as (_ & H2 & H3 & _).
  { right. vm_compute. reflexivity. }
  split; [exact H1|]. split; [by rewrite H2|exact H3].
Defined.

Lemma truthy_JSON_stringify l : truthy (JSON_stringify l) = true.
Proof. done. Qed.

(** X10.  Reloading gives the submissions back: when the store holds the
    snapshot of the submissions in memory and [JSON.parse] reads that
    snapshot back, a mount on this store starts with these submissions,
    in their order. *)
Theorem reload_restores
    (JSON_parse : jsstring → option (list Submission.t))
    (w : World) (now : Z) :
  in_sync w →
  JSON_parse (JSON_stringify (submissions (react w))) =
    Some (submissions (react w)) →
  let r := mount JSON_parse (localStorage w) now in
  r.1 = Return tt ∧ submissions (react r.2) = submissions (react w).
Proof.
  unfold in_sync, snapshot. intros Hs Hp.
  unfold mount, load_effect, mbind, M_bind. simpl.
  rewrite Hs, truthy_JSON_stringify, Hp. done.
Qed.

(** A reload on the store of a list of two records. *)
Lemma reload_restores_witness :
  let l := [record_of "a" "t1"; record_of "b" "t2"] in
  let r := mount (parse_only l) (localStorage (listing l)) 7 in
  r.1 = Return tt ∧ submissions (react r.2) = l.
Proof.
  intros l.
  apply (reload_restores (parse_only l) (listing l) 7 (listing_in_sync l)).
  change (parse_only l (JSON_stringify l) = Some l).
  unfold parse_only. rewrite bool_decide_eq_true_2; reflexivity.
Defined.

(** ** Submissions without an image *)

(** X11.  A submit of a valid form without image, whatever the form: the
    record of its fields, with a null [profileUrl] and the time of the
    submit as its timestamp, is put in front of the submissions, which
    are otherwise as they were, and no reader is started.  When the
    store has room, the whole sequence is stored by one write, the form
    is reset to the initial one and the errors are cleared. *)
Theorem submit_saves (now : Z) (w : World) :
  validate (form (react w)) = ∅ →
  Form.profile (form (react w)) = None →
  let f := form (react w) in
  let record :=
    {| Submission.name := Form.name f; Submission.email := Form.email f;
       Submission.age := Form.age f; Submission.gender := Form.gender f;
       Submission.bio := Form.bio f; Submission.hobbies := Form.hobbies f;
       Submission.profileUrl := None;
       Submission.timestamp := toISOString now |} in
  let next := record :: submissions (react w) in
  let r := dispatch now Submit w in
  submissions (react r.2) = next ∧
  readers r.2 = readers w ∧
  (fits (JSON_stringify next) w →
   r.1 = Return tt ∧
   snapshot r.2 = Some (JSON_stringify next) ∧
   written (calls r.2) =
     written (calls w) ++ [SetItem KEY (JSON_stringify next) true] ∧
   form (react r.2) = Form.initial ∧
   errors (react r.2) = ∅).
Proof.
  intros Hv Hp f record next r.
  destruct (dispatch_persists now Submit w next (persists_submit w now Hv Hp))
    as (H1 & H2 & _).
  split; [exact H1|]. split.
  - unfold r. rewrite dispatch_submit_readers by done. by rewrite Hp.
  - intros Hf. by destruct (H2 Hf) as (? & ? & ? & ? & ?).
Qed.

(** The form of Bob, submitted on a store with room. *)
Lemma submit_saves_witness :
  let r := dispatch 1762056000123 Submit (showing bob [record_of "a" "t1"] ∅ 1000) in
  r.1 = Return tt ∧
  (∃ record, submissions (react r.2) = [record; record_of "a" "t1"] ∧
             Submission.name record = js "Bob Ray" ∧
             Submission.hobbies record = [js "music"; js "sports"] ∧
             Submission.timestamp record = js "2025-11-02T04:00:00.123Z") ∧
  form (react r.2) = Form.initial.
Proof.
  intros r.
  destruct (submit_saves 1762056000123 (showing bob [record_of "a" "t1"] ∅ 1000))
    as (H1 & _ & H3).
  { vm_compute. reflexivity. }
  { reflexivity. }
  destruct H3 as (H3 & _ & _ & H4 & _).
  { unfold fits. vm_compute. lia. }
  fold r in H1, H3, H4. rewrite H1, H3, H4. clear.
  split; [reflexivity|]. split; [|reflexivity].
  eexists. split; [reflexivity|]. split; [reflexivity|]. split; [reflexivity|].
  vm_compute. reflexivity.
Defined.

(** ** Submissions with an image *)

(** No event but an [onload] takes a reader away. *)
Lemma dispatch_readers_grow now ev w :
  is_load ev = false → ∃ rs, readers (dispatch now ev w).2 = readers w ++ rs.
Proof.
  assert (∃ rs, readers w = readers w ++ rs) as Hnil
    by (exists []; by rewrite app_nil_r).
  intros Hl. unfold dispatch.
  destruct ev as [e|files| | |ts|i result]; try done; run_handler.
  - repeat case_bool_decide; simpl; by commit_frame.
  - by commit_frame.
  - destruct (0 <? _)%nat; simpl; [by commit_frame|].
    destruct (Form.profile (form (react w))); simpl.
    { commit_frame. by eexists. }
    destruct (_ <=? _)%nat; simpl; by commit_frame.
  - by commit_frame.
  - destruct (_ <=? _)%nat; simpl; by commit_frame.
Qed.

Lemma run_readers_grow evs w :
  Forall (fun tev => is_load tev.2 = false) evs →
  ∃ rs, readers (run evs w) = readers w ++ rs.
Proof.
  revert w. induction evs as [|[now ev] evs IH]; intros w Hev.
  - exists []. by rewrite app_nil_r.
  - apply Forall_cons in Hev as [Hev Hevs]. simpl.
    destruct (dispatch_readers_grow now ev w Hev) as [rs1 E1].
    destruct (IH (dispatch now ev w).2 Hevs) as [rs2 E2].
    exists (rs1 ++ rs2). by rewrite E2, E1, app_assoc.
Qed.

(** X12.  A submit of a valid form with an image saves nothing yet: it
    clears the errors and starts a reader on the image, whose handler
    holds the render of the submit; the form is not reset, no record is
    created and nothing is stored. *)
Theorem submit_with_image_waits (now : Z) (file : File) (w : World) :
  validate (form (react w)) = ∅ →
  Form.profile (form (react w)) = Some file →
  let r := dispatch now Submit w in
  r.1 = Return tt ∧
  errors (react r.2) = ∅ ∧
  form (react r.2) = form (react w) ∧
  submissions (react r.2) = submissions (react w) ∧
  localStorage r.2 = localStorage w ∧
  written (calls r.2) = written (calls w) ∧
  readers r.2 = readers w ++ [{| reading := file; onload_closure := react w |}].
Proof.
  intros Hv Hp r. unfold r, dispatch. simpl handler.
  rewrite handleSubmit_valid by done. simpl Form.profile. rewrite Hp.
  run_handler. commit_frame. rewrite written_app, app_nil_r. done.
Qed.

(** A submit of the form of Ana with an image. *)
Lemma submit_with_image_waits_witness :
  let w := showing ana_with_image [] ∅ 1000 in
  let r := dispatch 5 Submit w in
  r.1 = Return tt ∧
  submissions (react r.2) = [] ∧
  readers r.2 = [{| reading := portrait; onload_closure := react w |}].
Proof.
  intros w r.
  destruct (submit_with_image_waits 5 portrait w) as (H1 & _ & _ & H4 & _ & _ & H7).
  { apply validate_ana; reflexivity. }
  { reflexivity. }
  fold r in H1, H4, H7. rewrite H1, H4, H7. clear. repeat split.
Defined.

(** X13.  When the reader of such a submit is done, whatever was edited
    or submitted or deleted in between by events that keep the types of
    the form and are no [onload], the record saved holds the fields
    of the form as they were at the submit, with the result of the reader
    as its image, and it is put in front of the submissions as they were
    at the submit: these, with the record, replace the submissions in
    memory and, when the store has room, in store, and the form is
    reset. *)
Theorem onload_saves_the_submit
    (now later : Z) (file : File) (result : jsstring)
    (evs : list (Z * Event)) (w : World) :
  validate (form (react w)) = ∅ →
  Form.profile (form (react w)) = Some file →
  Forall (fun tev => is_load tev.2 = false) evs → typed_run evs →
  let w' := run evs (dispatch now Submit w).2 in
  let next := toSave (form (react w)) (Some result) (toISOString later)
              :: submissions (react w) in
  let r := dispatch later (ReaderLoad (length (readers w)) result) w' in
  submissions (react r.2) = next ∧
  (fits (JSON_stringify next) w' →
   r.1 = Return tt ∧ snapshot r.2 = Some (JSON_stringify next) ∧
   form (react r.2) = Form.initial).
Proof.
  intros Hv Hp Hev _ w' next r.
  assert (readers w' !! length (readers w) =
          Some {| reading := file; onload_closure := react w |}) as Hrd.
  { destruct (run_readers_grow evs (dispatch now Submit w).2 Hev) as [rs E].
    unfold w'. rewrite E, dispatch_submit_readers, Hp by done.
    rewrite <- app_assoc. by apply list_lookup_middle. }
  destruct (dispatch_persists later _ w' _
              (persists_load w' later _ result _ Hrd)) as (H1 & H2 & _).
  split; [exact H1|]. intros Hf. by destruct (H2 Hf) as (? & ? & ? & _).
Qed.

(** The form is reset between the submit and the [onload]: the record is that of Ana. *)
Lemma onload_saves_the_submit_witness :
  let w := showing ana_with_image [] ∅ 1000 in
  let w' := run [(6%Z, Reset)] (dispatch 5 Submit w).2 in
  let r := dispatch 7 (ReaderLoad 0 (js "data:")) w' in
  submissions (react r.2) =
    [toSave ana_with_image (Some (js "data:")) (js "1970-01-01T00:00:00.007Z")].
Proof.
  intros w w' r.
  destruct (onload_saves_the_submit 5 7 portrait (js "data:") [(6%Z, Reset)] w)
    as [H _].
  { apply validate_ana; reflexivity. }
  { reflexivity. }
  { repeat constructor. }
  { repeat constructor. }
  exact H.
Defined.

(** ** Saving, again and undone *)

Lemma validate_initial : validate Form.initial = required_errors.
Proof. vm_compute. reflexivity. Qed.

Lemma required_errors_nonempty : required_errors ≠ ∅.
Proof. by apply (lookup_nonempty _ "name" "Name is required."). Qed.

(** The store after a save. *)
Lemma dispatch_persists_store now ev w next :
  persists w now ev next → fits (JSON_stringify next) w →
  localStorage (dispatch now ev w).2 =
    {| items := <[KEY := JSON_stringify next]> (items (localStorage w));
       quota := quota (localStorage w) |}.
Proof.
  intros Hp Hf.
  destruct (dispatch_persists now ev w next Hp) as (Hs & Hok & _).
  destruct (Hok Hf) as (Hr & _ & _ & _ & Hw).
  destruct (dispatch_store now ev w) as [H|[H|H]].
  - destruct H as (_ & _ & _ & Hw'). rewrite Hw' in Hw.
    apply (f_equal length) in Hw. rewrite length_app in Hw. simpl in Hw. lia.
  - destruct H as (_ & _ & -> & _). by rewrite Hs.
  - destruct H as (Hr' & _). rewrite Hr' in Hr. discriminate.
Qed.

Lemma saved_in_sync now ev w next :
  persists w now ev next → fits (JSON_stringify next) w →
  in_sync (dispatch now ev w).2 ∧ within_quota (dispatch now ev w).2.
Proof.
  intros Hp Hf.
  destruct (dispatch_persists now ev w next Hp) as (Hs & Hok & _).
  destruct (Hok Hf) as (_ & Hsn & _).
  split.
  - unfold in_sync. by rewrite Hs.
  - unfold within_quota. by rewrite (dispatch_persists_store now ev w next).
Qed.

(** A submit of a form with errors, as a world. *)
Lemma dispatch_submit_invalid now w :
  validate (form (react w)) ≠ ∅ →
  dispatch now Submit w =
    (Return tt,
     (commit_effects
        (setErrors (validate (form (react w))) (set_clock now w).2).2).2).
Proof.
  intros H. unfold dispatch. simpl handler.
  by rewrite handleSubmit_invalid.
Qed.

(** X14.  A second submit right after a save saves nothing: the form was
    reset, so that the submit is halted with the four errors of what is
    required, and the submissions and the store stay as the save left
    them. *)
Theorem resubmit_is_halted (now now' : Z) (ev : Event) (w : World)
    (next : list Submission.t) :
  persists w now ev next → fits (JSON_stringify next) w →
  let w1 := (dispatch now ev w).2 in
  let r := dispatch now' Submit w1 in
  r.1 = Return tt ∧
  errors (react r.2) = required_errors ∧
  submissions (react r.2) = next ∧
  localStorage r.2 = localStorage w1 ∧
  readers r.2 = readers w1 ∧
  written (calls r.2) = written (calls w1).
Proof.
  intros Hp Hf w1 r.
  destruct (dispatch_persists now ev w next Hp) as (Hs & Hok & _).
  destruct (Hok Hf) as (_ & _ & Hform & _). fold w1 in Hs, Hform.
  unfold r. rewrite dispatch_submit_invalid;
    rewrite Hform, validate_initial; [|apply required_errors_nonempty].
  run_handler. by commit_frame.
Qed.

(** Two submits in a row of the form of Ana. *)
Lemma resubmit_is_halted_witness :
  let w := showing ana [] ∅ 1000 in
  let r := dispatch 6 Submit (dispatch 5 Submit w).2 in
  r.1 = Return tt ∧
  errors (react r.2) !! "name" = Some "Name is required." ∧
  length (submissions (react r.2)) = 1.
Proof.
  intros w r.
  destruct (resubmit_is_halted 5 6 Submit w _
              (persists_submit w 5 (validate_ana ana eq_refl eq_refl eq_refl
                                      eq_refl eq_refl) eq_refl))
    as (H1 & H2 & H3 & _).
  { unfold fits. vm_compute. lia. }
  fold r in H1, H2, H3. rewrite H1, H2, H3. clear. repeat split.
Defined.

(** What an [onload] leaves of the pending readers: the others. *)
Lemma dispatch_load_readers now i result w :
  readers (dispatch now (ReaderLoad i result) w).2 = delete i (readers w).
Proof.
  unfold dispatch. run_handler.
  destruct (readers w !! i); [|simpl; by commit_frame].
  run_handler. destruct (_ <=? _)%nat; simpl; by commit_frame.
Qed.

(** What a submit with an image leaves: the state but for the errors,
    and one more reader. *)
Lemma dispatch_submit_image now file w :
  validate (form (react w)) = ∅ →
  Form.profile (form (react w)) = Some file →
  let w1 := (dispatch now Submit w).2 in
  form (react w1) = form (react w) ∧
  submissions (react w1) = submissions (react w) ∧
  readers w1 = readers w ++ [{| reading := file; onload_closure := react w |}].
Proof.
  intros Hv Hp. unfold dispatch. simpl handler.
  rewrite handleSubmit_valid by done. simpl Form.profile. rewrite Hp.
  run_handler. by commit_frame.
Qed.

(** X15.  Two submits of a form with an image before either reader is
    done leave one record, not two: each [onload] saves over the
    submissions as they were at its submit, so that the record of the
    first reader is replaced by the record of the second. *)
Theorem double_submit_keeps_one
    (t1 t2 t3 t4 : Z) (file : File) (result1 result2 : jsstring) (w : World) :
  validate (form (react w)) = ∅ →
  Form.profile (form (react w)) = Some file →
  let i := length (readers w) in
  let w' := run [(t1, Submit); (t2, Submit); (t3, ReaderLoad i result1)] w in
  let r := dispatch t4 (ReaderLoad i result2) w' in
  let record result t := toSave (form (react w)) (Some result) (toISOString t) in
  submissions (react w') = record result1 t3 :: submissions (react w) ∧
  submissions (react r.2) = record result2 t4 :: submissions (react w) ∧
  readers r.2 = readers w ∧
  (fits (JSON_stringify (record result2 t4 :: submissions (react w))) w' →
   snapshot r.2 =
     Some (JSON_stringify (record result2 t4 :: submissions (react w)))).
Proof.
  intros Hv Hp i w' r record. cbn [run] in w'.
  set (w1 := (dispatch t1 Submit w).2) in *.
  set (w2 := (dispatch t2 Submit w1).2) in *.
  destruct (dispatch_submit_image t1 file w Hv Hp) as (Hf1 & Hs1 & Hr1).
  fold w1 in Hf1, Hs1, Hr1.
  destruct (dispatch_submit_image t2 file w1) as (Hf2 & Hs2 & Hr2);
    [by rewrite Hf1|by rewrite Hf1|].
  fold w2 in Hf2, Hs2, Hr2. rewrite Hr1 in Hr2.
  assert (readers w2 !! i = Some {| reading := file; onload_closure := react w |})
    as Hl1.
  { rewrite Hr2, <- app_assoc. by apply list_lookup_middle. }
  assert (readers w' = readers w ++ [{| reading := file; onload_closure := react w1 |}])
    as Hr3.
  { unfold w', i. rewrite dispatch_load_readers, Hr2, <- app_assoc.
    apply delete_middle. }
  assert (readers w' !! i = Some {| reading := file; onload_closure := react w1 |})
    as Hl2.
  { rewrite Hr3. by apply list_lookup_middle. }
  destruct (dispatch_persists t3 _ w2 _ (persists_load w2 t3 _ result1 _ Hl1))
    as (H1 & _).
  destruct (dispatch_persists t4 _ w' _ (persists_load w' t4 _ result2 _ Hl2))
    as (H2 & Hok & _).
  cbn [onload_closure] in H1, H2, Hok. rewrite Hf1, Hs1 in H2, Hok.
  split; [exact H1|]. split; [exact H2|]. split.
  - unfold r, i. rewrite dispatch_load_readers, Hr3, delete_middle.
    apply app_nil_r.
  - intros Hfits. by destruct (Hok Hfits) as (_ & ? & _).
Qed.

(** Two submits of the form of Ana with an image, then the two readers. *)
Lemma double_submit_keeps_one_witness :
  let w := showing ana_with_image [] ∅ 1000 in
  let w' := run [(1%Z, Submit); (2%Z, Submit);
                 (3%Z, ReaderLoad 0 (js "data:1"))] w in
  let r := dispatch 4 (ReaderLoad 0 (js "data:2")) w' in
  length (submissions (react w')) = 1 ∧
  length (submissions (react r.2)) = 1 ∧
  readers r.2 = [].
Proof.
  intros w w' r.
  destruct (double_submit_keeps_one 1 2 3 4 portrait (js "data:1") (js "data:2") w)
    as (H1 & H2 & H3 & _).
  { apply validate_ana; reflexivity. }
  { reflexivity. }
  split; [exact (f_equal length H1)|].
  split; [exact (f_equal length H2)|exact H3].
Defined.

(** ** Deleting *)

Lemma delete_keeps_sync now t w :
  in_sync w → within_quota w →
  in_sync (dispatch now (Delete t) w).2 ∧
  within_quota (dispatch now (Delete t) w).2.
Proof.
  intros Hs Hq.
  destruct (dispatch_delete now t w Hs Hq) as (_ & H2 & H3 & _).
  split.
  - unfold in_sync, snapshot. rewrite H2, H3. simpl. apply lookup_insert_eq.
  - unfold within_quota. rewrite H3. simpl.
    eapply fits_shorter; [done|exact Hs|]. apply length_JSON_stringify_filter.
Qed.

(** The store is given by the quota and the snapshot, when it holds
    nothing else than what the component stores. *)
Lemma insert_insert_KEY (m : gmap string jsstring) v1 v2 :
  <[KEY := v2]> (<[KEY := v1]> m) = <[KEY := v2]> m.
Proof. apply insert_insert_eq. Qed.

(** X16.  Deleting is idempotent and the order of two deletes does not
    matter: with the snapshot in store that of the submissions, deleting
    a timestamp twice leaves the submissions and the store as deleting
    it once, and deleting two timestamps in either order leaves the same
    submissions and the same store. *)
Theorem delete_order_irrelevant (n1 n2 : Z) (t1 t2 : jsstring) (w : World) :
  in_sync w → within_quota w →
  let once := run [(n1, Delete t1)] w in
  let twice := run [(n1, Delete t1); (n2, Delete t1)] w in
  let a := run [(n1, Delete t1); (n2, Delete t2)] w in
  let b := run [(n1, Delete t2); (n2, Delete t1)] w in
  submissions (react twice) = submissions (react once) ∧
  localStorage twice = localStorage once ∧
  submissions (react a) = submissions (react b) ∧
  localStorage a = localStorage b.
Proof.
  intros Hs Hq. cbn [run].
  destruct (delete_keeps_sync n1 t1 w Hs Hq) as [Hs1 Hq1].
  destruct (delete_keeps_sync n1 t2 w Hs Hq) as [Hs2 Hq2].
  destruct (dispatch_delete n1 t1 w Hs Hq) as (_ & A2 & A3 & _).
  destruct (dispatch_delete n1 t2 w Hs Hq) as (_ & B2 & B3 & _).
  destruct (dispatch_delete n2 t1 _ Hs1 Hq1) as (_ & C2 & C3 & _).
  destruct (dispatch_delete n2 t2 _ Hs1 Hq1) as (_ & D2 & D3 & _).
  destruct (dispatch_delete n2 t1 _ Hs2 Hq2) as (_ & E2 & E3 & _).
  assert (∀ l : list Submission.t,
            filter (fun s => Submission.timestamp s ≠ t1)
              (filter (fun s => Submission.timestamp s ≠ t1) l) =
            filter (fun s => Submission.timestamp s ≠ t1) l) as Hidem.
  { intros l. apply filter_all, Forall_forall.
    by intros s [? _]%list_elem_of_filter. }
  assert (∀ l : list Submission.t,
            filter (fun s => Submission.timestamp s ≠ t2)
              (filter (fun s => Submission.timestamp s ≠ t1) l) =
            filter (fun s => Submission.timestamp s ≠ t1)
              (filter (fun s => Submission.timestamp s ≠ t2) l)) as Hcomm.
  { intros l. induction l as [|s l IH]; [done|].
    destruct (decide (Submission.timestamp s = t1)) as [N1|N1],
             (decide (Submission.timestamp s = t2)) as [N2|N2];
      rewrite ?filter_cons_True, ?filter_cons_False, ?IH by tauto;
      rewrite ?filter_cons_True, ?filter_cons_False by tauto; done. }
  rewrite C2, C3, D2, D3, E2, E3, A2, A3, B2, B3. simpl.
  rewrite !insert_insert_KEY, Hidem, Hcomm. done.
Qed.

(** The first and the third of three records, deleted in either order. *)
Lemma delete_order_irrelevant_witness :
  let w := listing [record_of "a" "t1"; record_of "b" "t2"; record_of "c" "t3"] in
  let a := run [(1%Z, Delete (js "t1")); (2%Z, Delete (js "t3"))] w in
  let b := run [(1%Z, Delete (js "t3")); (2%Z, Delete (js "t1"))] w in
  submissions (react a) = submissions (react b) ∧
  localStorage a = localStorage b.
Proof.
  intros w a b.
  destruct (delete_order_irrelevant 1 2 (js "t1") (js "t3") w (listing_in_sync _))
    as (_ & _ & H3 & H4).
  { unfold within_quota. vm_compute. lia. }
  split; [exact H3|exact H4].
Defined.

(** X17.  Deleting the record that a submit has just saved undoes the
    save, when no older record has its timestamp: the submissions in
    memory are those from before the submit, and the snapshot in store
    is the one of these submissions.  When the store held that snapshot
    before the submit, the store is as it was before the submit.  The
    form is not given back: it stays reset. *)
Theorem delete_undoes_submit (now now' : Z) (w : World) :
  validate (form (react w)) = ∅ →
  Form.profile (form (react w)) = None →
  (∀ s, s ∈ submissions (react w) → Submission.timestamp s ≠ toISOString now) →
  fits (JSON_stringify
          (toSave (form (react w)) None (toISOString now) :: submissions (react w)))
       w →
  let r := dispatch now' (Delete (toISOString now)) (dispatch now Submit w).2 in
  r.1 = Return tt ∧
  submissions (react r.2) = submissions (react w) ∧
  snapshot r.2 = Some (JSON_stringify (submissions (react w))) ∧
  (in_sync w → localStorage r.2 = localStorage w) ∧
  form (react r.2) = Form.initial.
Proof.
  intros Hv Hp Hnew Hf r.
  pose proof (persists_submit w now Hv Hp) as Hper.
  destruct (saved_in_sync now _ w _ Hper Hf) as [Hs1 Hq1].
  destruct (dispatch_persists now _ w _ Hper) as (Hsub & Hok & _).
  destruct (Hok Hf) as (_ & _ & Hform & _).
  destruct (dispatch_delete now' (toISOString now) _ Hs1 Hq1)
    as (H1 & H2 & H3 & H4 & _).
  fold r in H1, H2, H3, H4.
  assert (submissions (react r.2) = submissions (react w)) as Hback.
  { rewrite H2, Hsub, filter_cons_False by (by intros ?).
    by apply filter_all, Forall_forall. }
  split; [done|]. split; [done|]. split; [|split].
  - unfold snapshot. rewrite H3. cbn [items]. rewrite lookup_insert_eq.
    by rewrite <- H2, Hback.
  - intros Hsync. rewrite H3, <- H2, Hback.
    rewrite (dispatch_persists_store now Submit w _ Hper Hf). cbn [items quota].
    rewrite insert_insert_KEY, insert_id by exact Hsync.
    by destruct (localStorage w).
  - by rewrite H4.
Qed.

(** The record of Ana, saved and deleted, on a store that holds the
    snapshot of the one older record. *)
Lemma delete_undoes_submit_witness :
  let old := record_of "a" "t1" in
  let w := showing ana [old] {[ KEY := JSON_stringify [old] ]} 1000 in
  let r := dispatch 6 (Delete (js "1970-01-01T00:00:00.005Z"))
             (dispatch 5 Submit w).2 in
  r.1 = Return tt ∧
  submissions (react r.2) = [old] ∧
  localStorage r.2 = localStorage w.
Proof.
  intros old w r.
  destruct (delete_undoes_submit 5 6 w) as (H1 & H2 & _ & H4 & _).
  { apply validate_ana; reflexivity. }
  { reflexivity. }
  { intros s Hs. apply list_elem_of_singleton in Hs. rewrite Hs. clear.
    vm_compute. discriminate. }
  { unfold fits. vm_compute. lia. }
  split; [exact H1|]. split; [exact H2|].
  apply H4. apply lookup_singleton_eq.
Defined.

(** ** A write that the store refuses *)

(** X18.  A record whose write the store refuses is on display and not
    in store: the submissions in memory hold it while the store keeps
    the snapshot from before, so that the two disagree, and a reload
    shows the submissions of the snapshot, without the record. *)
Theorem refused_record_is_lost
    (JSON_parse : jsstring → option (list Submission.t))
    (now now' : Z) (ev : Event) (w : World) (next : list Submission.t) :
  persists w now ev next → ¬ fits (JSON_stringify next) w →
  in_sync w → within_quota w →
  JSON_parse (JSON_stringify (submissions (react w))) =
    Some (submissions (react w)) →
  let r := dispatch now ev w in
  submissions (react r.2) = next ∧
  ¬ in_sync r.2 ∧
  submissions (react (mount JSON_parse (localStorage r.2) now').2) =
    submissions (react w).
Proof.
  intros Hper Hf Hs Hq Hparse r.
  destruct (dispatch_persists now ev w next Hper) as (Hsub & _ & Hfail).
  destruct (Hfail Hf) as (_ & Hstore & _). fold r in Hsub, Hstore.
  split; [done|]. split.
  - unfold in_sync, snapshot. rewrite Hstore, Hsub. intros Heq. apply Hf.
    unfold fits. by rewrite insert_id.
  - rewrite Hstore. unfold mount, load_effect, mbind, M_bind. simpl.
    unfold in_sync, snapshot in Hs. by rewrite Hs, truthy_JSON_stringify, Hparse.
Qed.

(** A store with room for the empty list only. *)
Lemma refused_record_is_lost_witness :
  let w := showing ana [] {[ KEY := JSON_stringify [] ]} 30 in
  let r := dispatch 5 Submit w in
  length (submissions (react r.2)) = 1 ∧
  submissions (react (mount (parse_only []) (localStorage r.2) 6).2) = [].
Proof.
  intros w r.
  destruct (refused_record_is_lost (parse_only []) 5 6 Submit w _
              (persists_submit w 5 (validate_ana ana eq_refl eq_refl eq_refl
                                      eq_refl eq_refl) eq_refl))
    as (H1 & _ & H3).
  { unfold fits. vm_compute. lia. }
  { apply lookup_singleton_eq. }
  { unfold within_quota. vm_compute. lia. }
  { reflexivity. }
  fold r in H1, H3. rewrite H1. split; [reflexivity|exact H3].
Defined.

(** ** What the records hold *)

(** The form after an event of the rendered form. *)
Lemma dispatch_rendered_choices now ev w :
  rendered (react w) ev → choices (form (react w)) →
  choices (form (react (dispatch now ev w).2)).
Proof.
  intros Hr (Hg & Hh & Hnd).
  assert (choices Form.initial) as Hinit.
  { split; [by left|]. split; [set_solver|constructor]. }
  unfold dispatch.
  inversion Hr as [k v Hk|g Hin|v|h Hin| |files| | |s Hin|i result]; subst.
  - run_handler. commit_frame.
    repeat (apply elem_of_cons in Hk as [->|Hk]; [done|]).
    by apply elem_of_nil in Hk.
  - run_handler. commit_frame. split; [by right|done].
  - run_handler. by commit_frame.
  - run_handler. commit_frame. cbn [assign_hobbies Form.gender Form.hobbies].
    split; [done|]. split.
    + case_bool_decide; simpl.
      * intros x [_ ?]%list_elem_of_filter. by apply Hh.
      * intros x [?|Hx%list_elem_of_singleton]%elem_of_app; [by apply Hh|].
        by subst x.
    + apply (toggle_NoDup _ h (negb (bool_decide (h ∈ Form.hobbies (form (react w))))));
        [|done].
      by case_bool_decide.
  - run_handler. by commit_frame.
  - run_handler. by commit_frame.
  - simpl handler.
    destruct (decide (validate (form (react w)) = ∅)) as [Hv|Hv].
    + rewrite handleSubmit_valid by done. cbn [set_clock react fst snd].
      destruct (Form.profile (form (react w))) as [file|].
      * run_handler. by commit_frame.
      * run_handler. destruct (_ <=? _)%nat; simpl; by commit_frame.
    + rewrite handleSubmit_invalid by done. run_handler. by commit_frame.
  - run_handler. by commit_frame.
  - run_handler. destruct (_ <=? _)%nat; simpl; by commit_frame.
  - run_handler. destruct (readers w !! i); [|simpl; by commit_frame].
    run_handler. destruct (_ <=? _)%nat; simpl; by commit_frame.
Qed.

Lemma records_from_cons Q loaded f url ts l :
  Q f → records_from Q loaded l → records_from Q loaded (toSave f url ts :: l).
Proof.
  intros HQ Hl s [Hs|Hs]%elem_of_cons; [|by apply Hl].
  right. by exists f, url, ts.
Qed.

Lemma records_inv_dispatch Q loaded now ev w :
  (validate (form (react w)) = ∅ → Q (form (react w))) →
  records_inv Q loaded w → records_inv Q loaded (dispatch now ev w).2.
Proof.
  intros HQ [Hs Hr]. unfold records_inv, dispatch.
  destruct ev as [e|files| | |ts|i result].
  - run_handler. repeat case_bool_decide; simpl; by commit_frame.
  - run_handler. by commit_frame.
  - simpl handler.
    destruct (decide (validate (form (react w)) = ∅)) as [Hv|Hv].
    + rewrite handleSubmit_valid by done. cbn [set_clock react fst snd].
      destruct (Form.profile (form (react w))) as [file|].
      * run_handler. commit_frame. split; [done|].
        intros rd [?|Hrd%list_elem_of_singleton]%elem_of_app; [by apply Hr|].
        subst rd. split; [by apply HQ|done].
      * run_handler.
        destruct (_ <=? _)%nat; simpl; commit_frame;
          (split; [apply records_from_cons; auto|done]).
    + rewrite handleSubmit_invalid by done. run_handler. by commit_frame.
  - run_handler. by commit_frame.
  - run_handler.
    destruct (_ <=? _)%nat; simpl; commit_frame;
      (split; [|done]); intros s [_ ?]%list_elem_of_filter; by apply Hs.
  - run_handler.
    assert (∀ rd, rd ∈ delete i (readers w) → rd ∈ readers w) as Hsub.
    { intros rd. apply list_elem_of_delete_inv. }
    destruct (readers w !! i) as [rd|] eqn:Hi; [|simpl; commit_frame; by auto].
    apply list_elem_of_lookup_2, Hr in Hi as [Hf Hl].
    run_handler.
    destruct (_ <=? _)%nat; simpl; commit_frame;
      (split; [apply records_from_cons; auto|by auto]).
Qed.

Lemma records_inv_run Q loaded evs w :
  (∀ f, validate f = ∅ → Q f) →
  records_inv Q loaded w → records_inv Q loaded (run evs w).
Proof.
  intros HQ. revert w. induction evs as [|[now ev] evs IH]; intros w Hw; [done|].
  simpl. apply IH, records_inv_dispatch; auto.
Qed.

Lemma rendered_inv_run loaded evs w :
  choices (form (react w)) →
  records_inv (fun f => validate f = ∅ ∧ choices f) loaded w →
  rendered_run w evs →
  choices (form (react (run evs w))) ∧
  records_inv (fun f => validate f = ∅ ∧ choices f) loaded (run evs w).
Proof.
  revert w. induction evs as [|[now ev] evs IH]; intros w Hc Hw Hr; [done|].
  destruct Hr as [Hev Hr]. cbn [run]. apply IH; [| |done].
  - by apply dispatch_rendered_choices.
  - apply records_inv_dispatch; auto.
Qed.

(** The component starts with the initial form, no pending reader, and
    the submissions it loaded. *)
Lemma records_inv_mount Q JSON_parse storage now :
  let w0 := (mount JSON_parse storage now).2 in
  form (react w0) = Form.initial ∧
  records_inv Q (submissions (react w0)) w0.
Proof.
  unfold mount, load_effect, mbind, M_bind, records_inv, records_from. simpl.
  assert (∀ rd : Reader, rd ∈ @nil Reader → False) as Hnil
    by (intros rd H; by apply elem_of_nil in H).
  destruct (items storage !! KEY) as [saved|]; simpl;
    [destruct (truthy saved); simpl; [destruct (JSON_parse saved)|]|];
    simpl; (split; [done|]); (split; [by left|]); intros rd H;
    by apply Hnil in H.
Qed.

Lemma made_well_formed s :
  made_from (fun f => validate f = ∅) s → well_formed s.
Proof.
  intros (f & url & ts & Hv & ->). unfold well_formed. simpl.
  rewrite <- validate_name_None, <- validate_email_None, <- validate_age_None,
    <- validate_gender_None, Hv.
  done.
Qed.

Lemma made_chosen s :
  made_from (fun f => validate f = ∅ ∧ choices f) s → chosen s.
Proof.
  intros (f & url & ts & [Hv Hc] & ->). unfold chosen. simpl.
  destruct Hc as ([Hg|Hg] & Hh & Hnd); [|done].
  assert (validate f !! "gender" = None) as Hn by by rewrite Hv.
  by apply validate_gender_None in Hn.
Qed.

(** X19.  Every record that the component makes has passed the
    validator: in every run of events that keep the types of the form,
    from the mount, each of the
    submissions was loaded from the store at the mount or has a name
    that is not blank, an email of the shape [x@y.z], an age that is
    empty or greater than zero and a gender that is not empty; the
    records made from an image, edits between the submit and the
    [onload] notwithstanding. *)
Theorem records_are_validated
    (JSON_parse : jsstring → option (list Submission.t))
    (storage : Storage) (now : Z) (evs : list (Z * Event)) :
  typed_run evs →
  let w0 := (mount JSON_parse storage now).2 in
  ∀ s, s ∈ submissions (react (run evs w0)) →
       s ∈ submissions (react w0) ∨ well_formed s.
Proof.
  intros _ w0 s Hs.
  destruct (records_inv_mount (fun f => validate f = ∅) JSON_parse storage now)
    as [_ Hinv].
  apply (records_inv_run _ _ evs) in Hinv as [Hinv _]; [|done].
  destruct (Hinv s Hs) as [?|Hm]; [by left|]. right. by apply made_well_formed.
Qed.

(** Ana fills the form in and submits it. *)
Lemma records_are_validated_witness :
  let evs := fill_ana 1 ++ [(2%Z, Submit)] in
  let s := toSave ana None (js "1970-01-01T00:00:00.002Z") in
  submissions (react (run evs fresh)) = [s] ∧ well_formed s.
Proof.
  intros evs s.
  assert (submissions (react (run evs fresh)) = [s]) as Hs
    by (vm_compute; reflexivity).
  split; [exact Hs|].
  destruct (records_are_validated (fun _ => None) {| items := ∅; quota := 1000 |}
              0 evs) with (s := s) as [Hin|Hw].
  - repeat constructor.
  - fold fresh. rewrite Hs. left.
  - apply elem_of_nil in Hin. destruct Hin.
  - exact Hw.
Defined.

(** X20.  In every run of events of the rendered form from the mount,
    the gender of the form is empty or one of the three on offer and its
    hobbies are among the four on offer, none twice; and the records
    that the component makes have one of the three genders and such
    hobbies. *)
Theorem rendered_records_are_chosen
    (JSON_parse : jsstring → option (list Submission.t))
    (storage : Storage) (now : Z) (evs : list (Z * Event)) :
  let w0 := (mount JSON_parse storage now).2 in
  rendered_run w0 evs →
  choices (form (react (run evs w0))) ∧
  ∀ s, s ∈ submissions (react (run evs w0)) →
       s ∈ submissions (react w0) ∨ chosen s.
Proof.
  intros w0 Hr.
  destruct (records_inv_mount (fun f => validate f = ∅ ∧ choices f)
              JSON_parse storage now) as [Hf Hinv].
  fold w0 in Hf, Hinv.
  destruct (rendered_inv_run (submissions (react w0)) evs w0)
    as [Hc [Hrec _]]; [|done|done|].
  { rewrite Hf. split; [by left|]. split; [set_solver|constructor]. }
  split; [done|]. intros s Hs.
  destruct (Hrec s Hs) as [?|Hm]; [by left|]. right. by apply made_chosen.
Qed.

(** Ana fills the rendered form in and submits it. *)
Lemma rendered_records_are_chosen_witness :
  let evs := fill_ana 1 ++ [(2%Z, Submit)] in
  let s := toSave ana None (js "1970-01-01T00:00:00.002Z") in
  rendered_run fresh evs ∧
  submissions (react (run evs fresh)) = [s] ∧ chosen s.
Proof.
  intros evs s.
  assert (submissions (react (run evs fresh)) = [s]) as Hs
    by (vm_compute; reflexivity).
  assert (rendered_run fresh evs) as Hr.
  { repeat split.
    - apply rendered_text. left.
    - apply rendered_text. right. left.
    - apply rendered_gender. right. left.
    - apply (rendered_agree (react (run (take 3 (fill_ana 1)) fresh))).
    - apply rendered_submit. }
  split; [exact Hr|]. split; [exact Hs|].
  destruct (rendered_records_are_chosen (fun _ => None)
              {| items := ∅; quota := 1000 |} 0 evs Hr) as [_ H].
  destruct (H s) as [Hin|Hc].
  - fold fresh. rewrite Hs. left.
  - apply elem_of_nil in Hin. destruct Hin.
  - exact Hc.
Defined.

(** ** Picking an image *)



(** ** The ages that pass *)

Lemma trimStart_app_blank ws s : blank ws → trimStart (ws ++ s) = trimStart s.
Proof.
  induction 1 as [|c ws Hc _ IH]; [done|]. simpl. by rewrite Hc.
Qed.

Lemma trimEnd_app_blank s ws : blank ws → trimEnd (s ++ ws) = trimEnd s.
Proof.
  intros H. unfold trimEnd. rewrite reverse_app, trimStart_app_blank; [done|].
  by apply Forall_reverse.
Qed.

Lemma trimStart_app s ws : ¬ blank s → trimStart (s ++ ws) = trimStart s ++ ws.
Proof.
  induction s as [|c s IH]; intros Hs; [by destruct Hs; constructor|].
  simpl. destruct (is_space c) eqn:Hc; [|done].
  apply IH. intros Hb. apply Hs. by constructor.
Qed.

Lemma trim_app_blank ws s ws' :
  blank ws → blank ws' → trim (ws ++ s ++ ws') = trim s.
Proof.
  intros Hl Hr. destruct (decide (blank s)) as [Hs|Hs].
  - transitivity (@nil N); [|symmetry]; apply trim_nil; [|done].
    unfold blank in *. by rewrite !Forall_app.
  - unfold trim. by rewrite trimStart_app_blank, trimStart_app, trimEnd_app_blank.
Qed.

Lemma Number_blank s : blank s → Number s = zero.
Proof. intros H. apply trim_nil in H. unfold Number. by rewrite H. Qed.

(** X22.  An age of white space only is refused, unless it is empty:
    [Number] reads it as zero. *)
Theorem blank_age_refused (f : Form.t) :
  blank (Form.age f) → Form.age f ≠ [] →
  validate f !! "age" = Some "Enter a valid age.".
Proof.
  intros Hb Hne. rewrite validate_age_eq, (Number_blank _ Hb).
  by destruct (Form.age f).
Qed.

(** An age of one space. *)
Lemma blank_age_refused_witness :
  validate (with_age " ") !! "age" = Some "Enter a valid age.".
Proof.
  apply blank_age_refused; [repeat constructor|discriminate].
Defined.

(** X23.  White space before and after an age that is not empty is
    ignored: the age is judged as without it. *)
Theorem age_ignores_white_space (f f' : Form.t) (ws ws' : jsstring) :
  blank ws → blank ws' →
  Form.age f' = ws ++ Form.age f ++ ws' →
  Form.age f ≠ [] →
  Number (Form.age f') = Number (Form.age f) ∧
  validate f' !! "age" = validate f !! "age".
Proof.
  intros Hl Hr E Hne.
  assert (Number (Form.age f') = Number (Form.age f)) as HN.
  { unfold Number. by rewrite E, trim_app_blank. }
  split; [done|]. rewrite !validate_age_eq, HN.
  assert (truthy (Form.age f') = true) as ->.
  { rewrite E. destruct ws; [|done]. simpl. by destruct (Form.age f). }
  by destruct (Form.age f).
Qed.

(** The age 42 between spaces. *)
Lemma age_ignores_white_space_witness :
  validate (with_age " 42 ") !! "age" = validate (with_age "42") !! "age".
Proof.
  apply (age_ignores_white_space (with_age "42") (with_age " 42 ")
           (js " ") (js " ")).
  - repeat constructor.
  - repeat constructor.
  - reflexivity.
  - discriminate.
Defined.

Lemma gt_negative m e : gt (Finite true m e) zero = false.
Proof.
  unfold gt, lt, zero, IsLessThan, scaled.
  assert (-1 * Z.of_N m * 2 ^ (e - Z.min 0 e) ≤ 0)%Z as H.
  { assert (0 ≤ 2 ^ (e - Z.min 0 e))%Z by (apply Z.pow_nonneg; lia). nia. }
  destruct (_ <? _)%Z eqn:E; [|done]. apply Z.ltb_lt in E. lia.
Qed.

Lemma round_ratio_negative a b : gt (round_ratio true a b) zero = false.
Proof.
  unfold round_ratio. destruct (971 <? _)%Z; [done|apply gt_negative].
Qed.

Lemma parse_negative r : gt (parse_unsigned_decimal true r) zero = false.
Proof.
  unfold parse_unsigned_decimal. case_bool_decide; [done|].
  destruct (span_digits r) as [int r1].
  destruct (match r1 with 46%N :: r0 => span_digits r0 | _ => ([], r1) end)
    as [frac r2].
  assert (gt match digits_value 10 0 (int ++ frac), parse_exponent r2 with
             | Some d, Some x => round_decimal true d (x - Z.of_nat (length frac))
             | _, _ => NaN
             end zero = false) as Hneg.
  { destruct (digits_value _ _ _) as [d|]; [|done].
    destruct (parse_exponent r2) as [x|]; [|done].
    unfold round_decimal. destruct (d =? 0)%N; [apply gt_negative|].
    destruct (0 <=? _)%Z; apply round_ratio_negative. }
  by destruct int, frac.
Qed.

(** X24.  An age that starts, white space apart, with a minus sign is
    refused, whatever follows the sign. *)
Theorem negative_age_refused (f : Form.t) (r : jsstring) :
  trim (Form.age f) = 45%N :: r →
  validate f !! "age" = Some "Enter a valid age.".
Proof.
  intros E. rewrite validate_age_eq, not_positive.
  assert (Number (Form.age f) = parse_unsigned_decimal true r) as ->.
  { unfold Number. by rewrite E. }
  rewrite parse_negative.
  destruct (Form.age f); [|done]. by vm_compute in E.
Qed.

(** The age -5 after a space. *)
Lemma negative_age_refused_witness :
  validate (with_age " -5") !! "age" = Some "Enter a valid age.".
Proof.
  apply (negative_age_refused (with_age " -5") (js "5")).
  vm_compute. reflexivity.
Defined.

Lemma digit_cases c :
  is_digit c = true →
  c ∈ [48; 49; 50; 51; 52; 53; 54; 55; 56; 57]%N.
Proof.
  unfold is_digit. intros [H1%N.leb_le H2%N.leb_le]%andb_prop.
  assert (c = 48 ∨ c = 49 ∨ c = 50 ∨ c = 51 ∨ c = 52 ∨ c = 53 ∨ c = 54 ∨
          c = 55 ∨ c = 56 ∨ c = 57)%N as H by lia.
  repeat (destruct H as [->|H]; [set_solver|]). subst. set_solver.
Qed.

Lemma digit_not_space c : is_digit c = true → is_space c = false.
Proof.
  intros H%digit_cases.
  repeat (apply elem_of_cons in H as [->|H]; [done|]).
  by apply elem_of_nil in H.
Qed.

Lemma trimStart_digits s : digits s → trimStart s = s.
Proof.
  destruct 1 as [|c s Hc _]; [done|]. simpl. by rewrite (digit_not_space c Hc).
Qed.

Lemma trim_digits s : digits s → trim s = s.
Proof.
  intros H. unfold trim, trimEnd. rewrite (trimStart_digits s H).
  rewrite trimStart_digits by by apply Forall_reverse.
  apply reverse_involutive.
Qed.

Lemma span_digits_digits s : digits s → span_digits s = (s, []).
Proof.
  induction 1 as [|c s Hc _ IH]; [done|]. simpl. by rewrite Hc, IH.
Qed.

Lemma digits_value_digits acc s :
  digits s →
  ∃ d, digits_value 10 acc s = Some d ∧
       (d = 0%N ↔ acc = 0%N ∧ Forall (eq 48%N) s).
Proof.
  intros H. revert acc. induction H as [|c s Hc _ IH]; intros acc.
  - exists acc. split; [done|]. split; [by split|by intros []].
  - simpl.
    assert (digit_value 10 c = Some (c - 48)%N) as ->.
    { apply digit_cases in Hc.
      repeat (apply elem_of_cons in Hc as [->|Hc]; [done|]).
      by apply elem_of_nil in Hc. }
    destruct (IH (acc * 10 + (c - 48))%N) as (d & -> & Hd).
    exists d. split; [done|]. rewrite Hd, Forall_cons.
    unfold is_digit in Hc. apply andb_prop in Hc as [H1%N.leb_le H2%N.leb_le].
    split; [intros [? ?]|intros [? [? ?]]]; repeat split; try done; lia.
Qed.

Lemma gt_positive m e : (0 < m)%N → gt (Finite false m e) zero = true.
Proof.
  intros Hm. unfold gt, lt, zero, IsLessThan, scaled.
  assert (0 < 2 ^ (e - Z.min 0 e))%Z by (apply Z.pow_pos_nonneg; lia).
  assert (1 * Z.of_N 0 * 2 ^ (0 - Z.min 0 e) <
          1 * Z.of_N m * 2 ^ (e - Z.min 0 e))%Z as Hlt by nia.
  apply Z.ltb_lt in Hlt. by rewrite Hlt.
Qed.

(** The Number for a positive integer is greater than zero. *)
Lemma round_integer_positive a : (0 < a)%Z → gt (round_ratio false a 1) zero = true.
Proof.
  intros Ha. unfold round_ratio.
  change (Z.log2 1) with 0%Z. rewrite Z.sub_0_r.
  pose proof (Z.log2_nonneg a) as HL.
  destruct (Z.log2_spec a Ha) as [Hlo _].
  set (L := Z.log2 a) in *.
  assert ((0 <=? L)%Z = true) as -> by by apply Z.leb_le.
  assert ((1 * 2 ^ L <=? a)%Z = true) as -> by (apply Z.leb_le; lia).
  assert (Z.max (L - 52) (-1074) = L - 52)%Z as -> by lia.
  set (n := (if (0 <=? L - 52)%Z then a else a * 2 ^ (- (L - 52)))%Z).
  set (d := (if (0 <=? L - 52)%Z then 1 * 2 ^ (L - 52) else 1)%Z).
  assert (0 < d ≤ n)%Z as Hdn.
  { unfold d, n. destruct (0 <=? L - 52)%Z eqn:E.
    - apply Z.leb_le in E.
      assert (0 < 2 ^ (L - 52))%Z by (apply Z.pow_pos_nonneg; lia).
      assert (2 ^ (L - 52) ≤ 2 ^ L)%Z by (apply Z.pow_le_mono_r; lia).
      lia.
    - apply Z.leb_nle in E.
      assert (0 < 2 ^ (- (L - 52)))%Z by (apply Z.pow_pos_nonneg; lia).
      nia. }
  assert (0 < n / d)%Z as Hq by (apply Z.div_str_pos; lia).
  set (q := (n / d)%Z) in *.
  match goal with |- context [if ?c then (q + 1)%Z else q] =>
    set (m := if c then (q + 1)%Z else q);
    assert (0 < m)%Z as Hm by (unfold m; destruct c; lia)
  end.
  destruct (971 <? _)%Z; [done|]. apply gt_positive.
  destruct (m =? 2 ^ 53)%Z; lia.
Qed.

Lemma Number_digits s :
  digits s → s ≠ [] → Number s = parse_unsigned_decimal false s.
Proof.
  intros H Hne. unfold Number. rewrite (trim_digits s H).
  destruct H as [|c s Hc Hs]; [done|].
  apply digit_cases in Hc.
  destruct Hs as [|c' s Hc' _].
  - repeat (apply elem_of_cons in Hc as [->|Hc]; [done|]).
    by apply elem_of_nil in Hc.
  - apply digit_cases in Hc'.
    repeat (apply elem_of_cons in Hc as [->|Hc];
      [repeat (apply elem_of_cons in Hc' as [->|Hc']; [done|]);
       by apply elem_of_nil in Hc'|]).
    by apply elem_of_nil in Hc.
Qed.

Lemma parse_digits s :
  digits s → s ≠ [] →
  ∃ d, parse_unsigned_decimal false s = round_decimal false d 0 ∧
       (d = 0%N ↔ Forall (eq 48%N) s).
Proof.
  intros H Hne.
  destruct (digits_value_digits 0 s H) as (d & Hd & Hz).
  exists d. split; [|by rewrite Hz; split; [intros []|]].
  unfold parse_unsigned_decimal. rewrite (span_digits_digits s H).
  rewrite app_nil_r, Hd. simpl.
  case_bool_decide as Hinf.
  - subst s. by inversion H.
  - by destruct s.
Qed.

(** X25.  An age written in decimal digits passes exactly when one of
    its digits is not 0: every positive whole number is accepted, at any
    length, and zero is refused. *)
Theorem digits_age (f : Form.t) :
  digits (Form.age f) → Form.age f ≠ [] →
  (validate f !! "age" = None ↔ ∃ c, c ∈ Form.age f ∧ c ≠ 48%N).
Proof.
  intros H Hne. rewrite validate_age_eq, not_positive, Number_digits by done.
  destruct (parse_digits _ H Hne) as (d & -> & Hz).
  assert (truthy (Form.age f) = true) as -> by by destruct (Form.age f).
  assert ((∃ c, c ∈ Form.age f ∧ c ≠ 48%N) ↔ d ≠ 0%N) as ->.
  { rewrite Hz. split.
    - intros (c & Hin & Hc) Hall. rewrite Forall_forall in Hall.
      by apply Hc, eq_sym, Hall.
    - intros Hnot. apply not_Forall_Exists in Hnot; [|apply _].
      apply Exists_exists in Hnot as (c & Hin & Hc). exists c.
      split; [done|]. intros ->. by apply Hc. }
  unfold round_decimal. destruct (d =? 0)%N eqn:E.
  - apply N.eqb_eq in E. subst d. simpl. by split.
  - apply N.eqb_neq in E. simpl.
    rewrite round_integer_positive by lia. by split.
Qed.

(** The ages 42 and 00. *)
Lemma digits_age_witness :
  validate (with_age "42") !! "age" = None ∧
  validate (with_age "00") !! "age" ≠ None.
Proof.
  split.
  - apply digits_age; [repeat constructor|discriminate|].
    exists 52%N. split; [left|discriminate].
  - intros H. apply digits_age in H as (c & Hin & Hc);
      [|repeat constructor|discriminate].
    apply elem_of_cons in Hin as [->|Hin]; [by apply Hc|].
    apply elem_of_cons in Hin as [->|Hin]; [by apply Hc|].
    apply elem_of_nil in Hin. destruct Hin.
Defined.
